(** * k-armed Gaussian bandits: epsilon-greedy, UCB and softmax policies

    Shallow embedding of [jigglypuffRL/classicalRL/karmedBandit.py].

    Conventions of the embedding.
    - numpy [float64] values (rewards, estimates, regret) are idealised as
      rationals [Q]: rounding is not represented, and [nan] and [inf] are
      represented in [SoftmaxActionSelection.softmax] (type [npfloat]), where
      they decide whether [np.random.choice] raises, and nowhere else.  The
      visitation counts, a float array in the source that only ever holds whole
      numbers, are integers [Z] and enter the arithmetic through [inject_Z].
    - [np.random] is a deterministic stream: the [k]-th draw is a function of
      [k] (a fixed seed); the state records how many draws were consumed.
      [np.exp], [np.sqrt] and [np.log] are taken from the same interface;
      [np.exp] answers [None] where its result overflows to [inf].
    - [np.random.choice] raises [ValueError] when the probabilities hold a
      [nan] or an infinity, a negative entry, or do not sum to 1.
    - Python exceptions are the [Raise] results of an error monad; indexing a
      numpy array out of range raises [IndexError], [np.argmax] or [max] of an
      empty sequence and a negative array dimension raise [ValueError]. *)

From Stdlib Require Import ZArith QArith Lia.
From stdpp Require Import base list sorting.

Local Open Scope nat_scope.

(** ** Exceptions *)

Inductive exn : Type := ValueError | IndexError.

Inductive result (A : Type) : Type :=
| Ok (a : A)
| Raise (e : exn).
Arguments Ok {A} a.
Arguments Raise {A} e.

#[global] Instance result_ret : MRet result := fun A a => Ok a.
#[global] Instance result_bind : MBind result := fun A B f m =>
  match m with Ok a => f a | Raise e => Raise e end.

(** ** The numpy interface *)

Record Numpy : Type := {
  normal : nat -> Q -> Q;        (* k-th draw of np.random.normal(loc) *)
  random : nat -> Q;             (* k-th draw of np.random.random() *)
  randint : nat -> nat -> nat;   (* k-th draw of np.random.randint(0, high) *)
  choice : nat -> list Q -> nat; (* k-th draw of np.random.choice(range(len p), p=p) *)
  exp : Q -> option Q;           (* np.exp; None: the result overflows to inf *)
  sqrt : Q -> Q;
  log : nat -> Q
}.

(** What numpy guarantees of its draws. *)
Record NumpyOk (np : Numpy) : Prop := {
  random_range : forall k, (0 <= random np k)%Q /\ (random np k < 1)%Q;
  randint_range : forall k high, 0 < high -> randint np k high < high;
  choice_range : forall k p, 0 < length p -> choice np k p < length p
}.

(** ** Helpers on arrays *)

Definition Qltb (x y : Q) : bool := negb (Qle_bool y x).

Definition sumQ (xs : list Q) : Q := foldr Qplus 0%Q xs.
Definition sumZ (xs : list Z) : Z := foldr Z.add 0%Z xs.

(** A float that may be infinite or not a number. *)
Inductive npfloat : Type :=
  | Fin (q : Q)
  | PInf
  | NInf
  | NaN.

(** IEEE addition and division on [npfloat]. *)
Definition fadd (a b : npfloat) : npfloat :=
  match a, b with
  | NaN, _ | _, NaN => NaN
  | Fin x, Fin y => Fin (x + y)
  | PInf, NInf | NInf, PInf => NaN
  | PInf, _ | _, PInf => PInf
  | NInf, _ | _, NInf => NInf
  end.

Definition fdiv (a b : npfloat) : npfloat :=
  match a, b with
  | NaN, _ | _, NaN => NaN
  | Fin x, Fin y =>
      if Qeq_bool y 0 then
        if Qeq_bool x 0 then NaN
        else if Qle_bool 0 x then PInf else NInf
      else Fin (x / y)
  | Fin _, _ => Fin 0
  | PInf, Fin y => if Qle_bool 0 y then PInf else NInf
  | NInf, Fin y => if Qle_bool 0 y then NInf else PInf
  | _, _ => NaN
  end.

(** [np.sum] of a float array. *)
Definition fsum (xs : list npfloat) : npfloat := foldr fadd (Fin 0) xs.

(** The rationals of an array of finite floats; [None] when an entry is
    infinite or not a number. *)
Fixpoint finite (xs : list npfloat) : option (list Q) :=
  match xs with
  | [] => Some []
  | Fin q :: xs =>
      match finite xs with
      | Some qs => Some (q :: qs)
      | None => None
      end
  | _ :: _ => None
  end.

(** [np.mean] of a Python list of floats. *)
Definition mean (xs : list Q) : Q :=
  (sumQ xs / inject_Z (Z.of_nat (length xs)))%Q.

Definition range (n : nat) : list nat := seq 0 n.

(** [m[i]] for a row of a two-dimensional array. *)
Definition getrow {A} (m : list (list A)) (i : nat) : result (list A) :=
  match m !! i with
  | Some row => Ok row
  | None => Raise IndexError
  end.

(** [xs[j]]. *)
Definition getidx {A} (xs : list A) (j : nat) : result A :=
  match xs !! j with
  | Some x => Ok x
  | None => Raise IndexError
  end.

(** [m[i, j]]. *)
Definition getitem {A} (m : list (list A)) (i j : nat) : result A :=
  row ← getrow m i; getidx row j.

(** [m[i, j] = x]. *)
Definition setitem {A} (m : list (list A)) (i j : nat) (x : A)
  : result (list (list A)) :=
  row ← getrow m i;
  if decide (j < length row) then Ok (<[i := <[j := x]> row]> m)
  else Raise IndexError.

(** First index holding the maximum, scanning from the left: a later entry
    replaces the running best only when strictly greater. *)
Fixpoint argmax_from (best : Q) (besti i : nat) (xs : list Q) : nat :=
  match xs with
  | [] => besti
  | x :: xs' =>
      if Qltb best x then argmax_from x i (S i) xs'
      else argmax_from best besti (S i) xs'
  end.

(** [np.argmax]. *)
Definition argmax (xs : list Q) : result nat :=
  match xs with
  | [] => Raise ValueError
  | x :: xs' => Ok (argmax_from x 0 1 xs')
  end.

Fixpoint max_from (best : Q) (xs : list Q) : Q :=
  match xs with
  | [] => best
  | x :: xs' => if Qltb best x then max_from x xs' else max_from best xs'
  end.

(** Python's builtin [max]. *)
Definition pymax (xs : list Q) : result Q :=
  match xs with
  | [] => Raise ValueError
  | x :: xs' => Ok (max_from x xs')
  end.

(** [for x in xs: body], threading the mutated state. *)
Fixpoint for_each {A S} (xs : list A) (body : A -> S -> result S) (s : S)
  : result S :=
  match xs with
  | [] => Ok s
  | x :: xs' => s' ← body x s; for_each xs' body s'
  end.

(** ** class GaussianBandits

    The class hierarchy is flattened: one record holds the attributes of
    [Bandit] and [GaussianBandits] and the single attribute each subclass
    adds.  Two history fields record what the run did; no method reads
    them. *)

Record GaussianBandits : Type := {
  _nbandits : nat;
  _narms : nat;
  _rewards : list (list Q);
  _Q : list (list Q);
  _counts : list (list Z);
  _regret : Q;
  _regrets : list Q;
  _avg_reward : list Q;
  (* attribute of the subclass EpsGreedy *)
  _eps : Q;
  (* attribute of the subclass SoftmaxActionSelection *)
  _temp : Q;
  (* position in the np.random stream: draws consumed so far *)
  draws : nat;
  (* ghost history: (bandit, arm, reward) of every get_reward, oldest first *)
  sampled : list (nat * nat * Q);
  (* ghost history: the arguments t and counts[bandit] of every
     evaluation of UCB.get_action, oldest first *)
  ucb_calls : list (nat * list Z)
}.

Definition set_Q (v : list (list Q)) (s : GaussianBandits) : GaussianBandits :=
  {| _nbandits := _nbandits s; _narms := _narms s; _rewards := _rewards s;
     _Q := v; _counts := _counts s; _regret := _regret s;
     _regrets := _regrets s; _avg_reward := _avg_reward s; _eps := _eps s;
     _temp := _temp s; draws := draws s; sampled := sampled s;
     ucb_calls := ucb_calls s |}.

Definition set_counts (v : list (list Z)) (s : GaussianBandits) : GaussianBandits :=
  {| _nbandits := _nbandits s; _narms := _narms s; _rewards := _rewards s;
     _Q := _Q s; _counts := v; _regret := _regret s; _regrets := _regrets s;
     _avg_reward := _avg_reward s; _eps := _eps s; _temp := _temp s;
     draws := draws s; sampled := sampled s; ucb_calls := ucb_calls s |}.

Definition set_regret (r : Q) (rs : list Q) (s : GaussianBandits) : GaussianBandits :=
  {| _nbandits := _nbandits s; _narms := _narms s; _rewards := _rewards s;
     _Q := _Q s; _counts := _counts s; _regret := r; _regrets := rs;
     _avg_reward := _avg_reward s; _eps := _eps s; _temp := _temp s;
     draws := draws s; sampled := sampled s; ucb_calls := ucb_calls s |}.

Definition set_avg_reward (v : list Q) (s : GaussianBandits) : GaussianBandits :=
  {| _nbandits := _nbandits s; _narms := _narms s; _rewards := _rewards s;
     _Q := _Q s; _counts := _counts s; _regret := _regret s;
     _regrets := _regrets s; _avg_reward := v; _eps := _eps s;
     _temp := _temp s; draws := draws s; sampled := sampled s;
     ucb_calls := ucb_calls s |}.

Definition set_eps (v : Q) (s : GaussianBandits) : GaussianBandits :=
  {| _nbandits := _nbandits s; _narms := _narms s; _rewards := _rewards s;
     _Q := _Q s; _counts := _counts s; _regret := _regret s;
     _regrets := _regrets s; _avg_reward := _avg_reward s; _eps := v;
     _temp := _temp s; draws := draws s; sampled := sampled s;
     ucb_calls := ucb_calls s |}.

Definition set_temp (v : Q) (s : GaussianBandits) : GaussianBandits :=
  {| _nbandits := _nbandits s; _narms := _narms s; _rewards := _rewards s;
     _Q := _Q s; _counts := _counts s; _regret := _regret s;
     _regrets := _regrets s; _avg_reward := _avg_reward s; _eps := _eps s;
     _temp := v; draws := draws s; sampled := sampled s;
     ucb_calls := ucb_calls s |}.

Definition set_draws (k : nat) (s : GaussianBandits) : GaussianBandits :=
  {| _nbandits := _nbandits s; _narms := _narms s; _rewards := _rewards s;
     _Q := _Q s; _counts := _counts s; _regret := _regret s;
     _regrets := _regrets s; _avg_reward := _avg_reward s; _eps := _eps s;
     _temp := _temp s; draws := k; sampled := sampled s;
     ucb_calls := ucb_calls s |}.

Definition set_sampled (v : list (nat * nat * Q)) (s : GaussianBandits) : GaussianBandits :=
  {| _nbandits := _nbandits s; _narms := _narms s; _rewards := _rewards s;
     _Q := _Q s; _counts := _counts s; _regret := _regret s;
     _regrets := _regrets s; _avg_reward := _avg_reward s; _eps := _eps s;
     _temp := _temp s; draws := draws s; sampled := v;
     ucb_calls := ucb_calls s |}.

Definition set_ucb_calls (v : list (nat * list Z)) (s : GaussianBandits) : GaussianBandits :=
  {| _nbandits := _nbandits s; _narms := _narms s; _rewards := _rewards s;
     _Q := _Q s; _counts := _counts s; _regret := _regret s;
     _regrets := _regrets s; _avg_reward := _avg_reward s; _eps := _eps s;
     _temp := _temp s; draws := draws s; sampled := sampled s;
     ucb_calls := v |}.

(** One tick of the random stream. *)
Definition tick (s : GaussianBandits) : GaussianBandits :=
  set_draws (S (draws s)) s.

Section Bandits.

Variable np : Numpy.

(** [np.random.normal(size=(bandits, arms))], drawn row by row from draw [k]. *)
Definition normal_matrix (k bandits arms : nat) : list (list Q) :=
  map (fun b => map (fun a => normal np (k + b * arms + a) 0%Q) (range arms))
      (range bandits).

(** [GaussianBandits.__init__], run with [k] draws already consumed.  numpy
    refuses a negative dimension. *)
Definition __init__ (k : nat) (bandits arms : Z) : result GaussianBandits :=
  if ((bandits <? 0) || (arms <? 0))%Z then Raise ValueError
  else
    let nb := Z.to_nat bandits in
    let na := Z.to_nat arms in
    Ok {| _nbandits := nb; _narms := na;
          _rewards := normal_matrix k nb na;
          _Q := replicate nb (replicate na 0%Q);
          _counts := replicate nb (replicate na 0%Z);
          _regret := 0%Q;
          _regrets := [0%Q];
          _avg_reward := [];
          _eps := 0%Q; _temp := 0%Q;
          draws := k + nb * na;
          sampled := [];
          ucb_calls := [] |}.

(** [get_reward], textually the same in the three policies. *)
Definition get_reward (bandit action : nat) (s : GaussianBandits)
  : result (Q * GaussianBandits) :=
  mu ← getitem (_rewards s) bandit action;
  let reward := normal np (draws s) mu in
  Ok (reward, set_sampled (sampled s ++ [(bandit, action, reward)]) (tick s)).

(** [update_regret], textually the same in the three policies. *)
Definition update_regret (bandit action : nat) (s : GaussianBandits)
  : result GaussianBandits :=
  row ← getrow (_Q s) bandit;
  best ← pymax row;
  q ← getidx row action;
  let r := (_regret s + (best - q))%Q in
  Ok (set_regret r (_regrets s ++ [r]) s).

(** [self.Q[bandit, action] += (reward - self.Q[bandit, action]) /
    (self.counts[bandit, action] + 1)]. *)
Definition update_Q (bandit action : nat) (reward : Q) (s : GaussianBandits)
  : result GaussianBandits :=
  q ← getitem (_Q s) bandit action;
  c ← getitem (_counts s) bandit action;
  m ← setitem (_Q s) bandit action (q + (reward - q) / (inject_Z c + 1))%Q;
  Ok (set_Q m s).

(** [self.counts[bandit, action] += 1]. *)
Definition incr_counts (bandit action : nat) (s : GaussianBandits)
  : result GaussianBandits :=
  c ← getitem (_counts s) bandit action;
  m ← setitem (_counts s) bandit action (c + 1)%Z;
  Ok (set_counts m s).

(** The timestep loop the three [learn] methods share:
    [for i in range(n_timesteps): r = self.one_step(i);
     self.avg_reward.append(np.mean(r))]. *)
Definition timestep
    (one_step : nat -> GaussianBandits -> result (list Q * GaussianBandits))
    (i : nat) (s : GaussianBandits) : result GaussianBandits :=
  '(r, s') ← one_step i s;
  Ok (set_avg_reward (_avg_reward s' ++ [mean r]) s').

Definition main_loop
    (one_step : nat -> GaussianBandits -> result (list Q * GaussianBandits))
    (n_timesteps : Z) (s : GaussianBandits) : result GaussianBandits :=
  for_each (range (Z.to_nat n_timesteps)) (timestep one_step) s.

End Bandits.

(** ** class EpsGreedy *)

Module EpsGreedy.
Section Policy.

Variable np : Numpy.

Definition __init__ (k : nat) (bandits arms : Z) (eps : Q)
  : result GaussianBandits :=
  s ← __init__ np k bandits arms;
  Ok (set_eps eps s).

Definition get_action (bandit : nat) (s : GaussianBandits)
  : result (nat * GaussianBandits) :=
  let u := random np (draws s) in
  let s := tick s in
  if Qltb u (_eps s) then
    if decide (_narms s = 0) then Raise ValueError
    else Ok (randint np (draws s) (_narms s), tick s)
  else
    row ← getrow (_Q s) bandit;
    action ← argmax row;
    Ok (action, s).

(** Body of the [for bandit] loop of [one_step]. *)
Definition decide_for (bandit : nat) (acc : list Q * GaussianBandits)
  : result (list Q * GaussianBandits) :=
  let '(R_step, s) := acc in
  '(action, s) ← get_action bandit s;
  '(reward, s) ← get_reward np bandit action s;
  let R_step := R_step ++ [reward] in
  s ← update_regret bandit action s;
  s ← update_Q bandit action reward s;
  s ← incr_counts bandit action s;
  Ok (R_step, s).

Definition one_step (i : nat) (s : GaussianBandits)
  : result (list Q * GaussianBandits) :=
  for_each (range (_nbandits s)) decide_for ([], s).

Definition learn (n_timesteps : Z) (s : GaussianBandits)
  : result GaussianBandits :=
  main_loop one_step n_timesteps s.

End Policy.
End EpsGreedy.

(** ** The warm-up and the counted step of UCB and SoftmaxActionSelection

    [initial_run] is textually the same in the two classes, and their
    [one_step] methods differ only in the call of [get_action]. *)

Section Warm.

Variable np : Numpy.

(** Body of the [for arm] loop of [initial_run]. *)
Definition visit_arm (bandit arm : nat) (acc : list Q * GaussianBandits)
  : result (list Q * GaussianBandits) :=
  let '(bandit_reward, s) := acc in
  s ← incr_counts bandit arm s;
  '(reward, s) ← get_reward np bandit arm s;
  let bandit_reward := bandit_reward ++ [reward] in
  s ← update_Q bandit arm reward s;
  s ← update_regret bandit arm s;
  Ok (bandit_reward, s).

(** Body of the [for bandit] loop of [initial_run]. *)
Definition visit_bandit (bandit : nat) (s : GaussianBandits)
  : result GaussianBandits :=
  '(bandit_reward, s) ← for_each (range (_narms s)) (visit_arm bandit) ([], s);
  Ok (set_avg_reward (_avg_reward s ++ [mean bandit_reward]) s).

Definition initial_run (s : GaussianBandits) : result GaussianBandits :=
  for_each (range (_nbandits s)) visit_bandit s.

Variable get_action :
  nat -> nat -> GaussianBandits -> result (nat * GaussianBandits).

(** Body of the [for bandit] loop of [one_step]. *)
Definition decide_counted (i bandit : nat) (acc : list Q * GaussianBandits)
  : result (list Q * GaussianBandits) :=
  let '(R_step, s) := acc in
  '(action, s) ← get_action i bandit s;
  s ← incr_counts bandit action s;
  '(reward, s) ← get_reward np bandit action s;
  let R_step := R_step ++ [reward] in
  s ← update_Q bandit action reward s;
  s ← incr_counts bandit action s;
  s ← update_regret bandit action s;
  Ok (R_step, s).

Definition one_step_counted (i : nat) (s : GaussianBandits)
  : result (list Q * GaussianBandits) :=
  for_each (range (_nbandits s)) (decide_counted i) ([], s).

Definition learn_warm (n_timesteps : Z) (s : GaussianBandits)
  : result GaussianBandits :=
  s ← initial_run s;
  main_loop one_step_counted n_timesteps s.

End Warm.

(** ** class UCB *)

Module UCB.
Section Policy.

Variable np : Numpy.

(** [UCB.__init__] assigns a fresh zero array to [_counts] once more. *)
Definition __init__ (k : nat) (bandits arms : Z) : result GaussianBandits :=
  s ← __init__ np k bandits arms;
  Ok (set_counts (replicate (_nbandits s) (replicate (_narms s) 0%Z)) s).

Definition get_action (t bandit : nat) (s : GaussianBandits)
  : result (nat * GaussianBandits) :=
  q ← getrow (_Q s) bandit;
  c ← getrow (_counts s) bandit;
  let bound := map (fun n => sqrt np (2 * log np t / inject_Z n)%Q) c in
  action ← argmax (zip_with Qplus q bound);
  Ok (action, set_ucb_calls (ucb_calls s ++ [(t, c)]) s).

Definition one_step : nat -> GaussianBandits -> result (list Q * GaussianBandits) :=
  one_step_counted np get_action.

Definition initial_run : GaussianBandits -> result GaussianBandits :=
  initial_run np.

Definition learn : Z -> GaussianBandits -> result GaussianBandits :=
  learn_warm np get_action.

End Policy.
End UCB.

(** ** class SoftmaxActionSelection *)

Module SoftmaxActionSelection.
Section Policy.

Variable np : Numpy.

Definition __init__ (k : nat) (bandits arms : Z) (temp : Q)
  : result GaussianBandits :=
  s ← __init__ np k bandits arms;
  Ok (set_temp temp s).

(** [np.exp] of a float. *)
Definition fexp (a : npfloat) : npfloat :=
  match a with
  | Fin v => match exp np v with Some e => Fin e | None => PInf end
  | PInf => PInf
  | NInf => Fin 0
  | NaN => NaN
  end.

Definition softmax (temp : Q) (x : list Q) : list npfloat :=
  let e := map (fun v => fexp (fdiv (Fin v) (Fin temp))) x in
  let total := fsum e in
  map (fun v => fdiv v total) e.

(** What [np.random.choice(range(arms), p=p)] accepts: as many probabilities
    as arms, none negative, summing to 1. *)
Definition valid_probabilities (arms : nat) (p : list Q) : bool :=
  Nat.eqb (length p) arms && forallb (Qle_bool 0) p && Qeq_bool (sumQ p) 1.

(** [np.random.choice] refuses an empty population, and probabilities that
    hold a [nan] or an infinity or that are no distribution. *)
Definition get_action (bandit : nat) (s : GaussianBandits)
  : result (nat * GaussianBandits) :=
  row ← getrow (_Q s) bandit;
  let probabilities := softmax (_temp s) row in
  if decide (_narms s = 0) then Raise ValueError
  else match finite probabilities with
       | Some p =>
           if valid_probabilities (_narms s) p
           then Ok (choice np (draws s) p, tick s)
           else Raise ValueError
       | None => Raise ValueError
       end.

Definition one_step : nat -> GaussianBandits -> result (list Q * GaussianBandits) :=
  one_step_counted np (fun _ => get_action).

Definition initial_run : GaussianBandits -> result GaussianBandits :=
  initial_run np.

Definition learn : Z -> GaussianBandits -> result GaussianBandits :=
  learn_warm np (fun _ => get_action).

End Policy.
End SoftmaxActionSelection.

(** ** Vocabulary of the specifications *)

(** A [bandits] by [arms] array. *)
Definition shaped {A} (nb na : nat) (m : list (list A)) : Prop :=
  length m = nb /\ Forall (fun row => length row = na) m.

(** The three arrays have the shape [(nbandits, narms)]. *)
Definition wf (s : GaussianBandits) : Prop :=
  shaped (_nbandits s) (_narms s) (_rewards s) /\
  shaped (_nbandits s) (_narms s) (_Q s) /\
  shaped (_nbandits s) (_narms s) (_counts s).

(** What [get_action] may touch: the random stream and the call history. *)
Record same_tables (s s' : GaussianBandits) : Prop := {
  st_nbandits : _nbandits s' = _nbandits s;
  st_narms : _narms s' = _narms s;
  st_rewards : _rewards s' = _rewards s;
  st_Q : _Q s' = _Q s;
  st_counts : _counts s' = _counts s;
  st_regret : _regret s' = _regret s;
  st_regrets : _regrets s' = _regrets s;
  st_avg_reward : _avg_reward s' = _avg_reward s;
  st_eps : _eps s' = _eps s;
  st_temp : _temp s' = _temp s;
  st_sampled : sampled s' = sampled s
}.

(** The state change of one decision on arm [a] of bandit [b] with sampled
    reward [r]: [pre] is the number of increments of the counter before the
    value update, [post] the number after it. *)
Record effect (np : Numpy) (pre post : Z) (b a : nat) (r : Q) (s s' : GaussianBandits)
  : Prop := {
  eff_nbandits : _nbandits s' = _nbandits s;
  eff_narms : _narms s' = _narms s;
  eff_rewards : _rewards s' = _rewards s;
  eff_avg_reward : _avg_reward s' = _avg_reward s;
  eff_eps : _eps s' = _eps s;
  eff_temp : _temp s' = _temp s;
  eff_draws : draws s' = S (draws s);
  eff_ucb_calls : ucb_calls s' = ucb_calls s;
  eff_sampled : sampled s' = sampled s ++ [(b, a, r)];
  eff_reward : exists mu,
    getitem (_rewards s) b a = Ok mu /\ r = normal np (draws s) mu;
  eff_counts : exists crow c,
    _counts s !! b = Some crow /\ crow !! a = Some c /\
    _counts s' = <[b := <[a := (c + pre + post)%Z]> crow]> (_counts s);
  eff_Q : exists qrow q c,
    _Q s !! b = Some qrow /\ qrow !! a = Some q /\
    getitem (_counts s) b a = Ok c /\
    _Q s' = <[b := <[a := (q + (r - q) / (inject_Z (c + pre) + 1))%Q]> qrow]>
              (_Q s);
  eff_regret : exists gap,
    (0 <= gap)%Q /\ _regret s' = (_regret s + gap)%Q /\
    _regrets s' = _regrets s ++ [_regret s']
}.

(** A state of dimensions [(nb, na)]. *)
Definition dims (nb na : nat) (s : GaussianBandits) : Prop :=
  _nbandits s = nb /\ _narms s = na /\ wf s.

(** A [get_action] that returns an arm in range and leaves the tables alone. *)
Definition chooses
    (get_action : nat -> nat -> GaussianBandits -> result (nat * GaussianBandits))
    : Prop :=
  forall i b s, wf s -> b < _nbandits s -> 0 < _narms s ->
    exists a s1, get_action i b s = Ok (a, s1) /\ a < _narms s /\ same_tables s s1.

(** [np.exp] overflows on no entry of [x] divided by [temp], and underflows
    to 0 on none. *)
Definition exp_finite_on (np : Numpy) (temp : Q) (x : list Q) : Prop :=
  Forall (fun v => exists e, exp np (v / temp)%Q = Some e /\ (0 < e)%Q) x.

(** [np.exp] that never overflows: it returns a positive float everywhere. *)
Definition exp_defined (np : Numpy) : Prop :=
  forall v, exists e, exp np v = Some e /\ (0 < e)%Q.

(** [get_action] as it behaves in the states of temperature [T], completed
    elsewhere by a decision for arm 0 that consumes one draw.  A run that
    starts at temperature [T] never leaves it, so that it cannot tell the two
    apart. *)
Definition at_temperature (T : Q)
    (get_action : nat -> nat -> GaussianBandits -> result (nat * GaussianBandits))
    : nat -> nat -> GaussianBandits -> result (nat * GaussianBandits) :=
  fun i b s =>
    if Qeq_bool (_temp s) T then get_action i b s else Ok (0, tick s).

(** The estimate of one cell fed a sequence of rewards with the sequencing of
    EpsGreedy.one_step: the value update, then the increment of the counter. *)
Definition feed (bandit action : nat) (rs : list Q) (s : GaussianBandits)
  : result GaussianBandits :=
  for_each rs
    (fun reward s => s ← update_Q bandit action reward s;
                     incr_counts bandit action s) s.

(** The state right after construction. *)
Record fresh (nb na : nat) (s : GaussianBandits) : Prop := {
  fr_dims : dims nb na s;
  fr_Q : _Q s = replicate nb (replicate na 0%Q);
  fr_counts : _counts s = replicate nb (replicate na 0%Z);
  fr_regret : _regret s = 0%Q;
  fr_regrets : _regrets s = [0%Q];
  fr_avg_reward : _avg_reward s = [];
  fr_sampled : sampled s = [];
  fr_ucb_calls : ucb_calls s = []
}.


(** [sum(counts[b, :])], the visits recorded for bandit [b]. *)
Definition row_sum (s : GaussianBandits) (b : nat) : Z :=
  match _counts s !! b with
  | Some row => sumZ row
  | None => 0%Z
  end.




(** Every count of the array is at least 1. *)
Definition counts_positive (m : list (list Z)) : Prop :=
  Forall (Forall (fun c => (1 <= c)%Z)) m.

(** A recorded evaluation of UCB.get_action whose division by
    [counts[bandit]] is defined: one count per arm, none below 1. *)
Definition call_counts_ok (na : nat) (call : nat * list Z) : Prop :=
  length (snd call) = na /\ Forall (fun c => (1 <= c)%Z) (snd call).

(** ** Concrete inputs *)

(** A numpy whose [k]-th normal draw lies [k + 1] above its mean, whose other
    draws are constant, and whose [exp] is [1 + v] from 0 on and [1 / (1 - v)]
    below: positive and increasing. *)
Definition np0 : Numpy := {|
  normal := fun k loc => (loc + inject_Z (Z.of_nat (S k)))%Q;
  random := fun _ => (1 # 2)%Q;
  randint := fun _ _ => 0;
  choice := fun _ _ => 0;
  exp := fun v => Some (if Qle_bool 0 v then 1 + v else 1 / (1 - v))%Q;
  sqrt := fun x => x;
  log := fun t => inject_Z (Z.of_nat t)
|}.


(** A state in which arms 1 and 2 of the only bandit tie for the maximum. *)
Definition s_first_wins : GaussianBandits :=
  {| _nbandits := 1; _narms := 3;
     _rewards := [[0; 0; 0]]%Q;
     _Q := [[1; 2; 2]]%Q;
     _counts := [[1; 1; 1]]%Z;
     _regret := 0%Q; _regrets := [0%Q]; _avg_reward := [];
     _eps := 0%Q; _temp := 0%Q; draws := 0; sampled := []; ucb_calls := [] |}.

(** [EpsGreedy(bandits=1, arms=2, eps=0)] as constructed under [np0]. *)
Definition s_cold : GaussianBandits :=
  {| _nbandits := 1; _narms := 2;
     _rewards := [[1; 2]]%Q;
     _Q := [[0; 0]]%Q;
     _counts := [[0; 0]]%Z;
     _regret := 0%Q; _regrets := [0%Q]; _avg_reward := [];
     _eps := 0%Q; _temp := 0%Q; draws := 2; sampled := []; ucb_calls := [] |}.

(** [UCB(bandits=1, arms=1)] under [np0] right after its initial run, which
    sampled reward 3. *)
Definition s_warm : GaussianBandits :=
  {| _nbandits := 1; _narms := 1;
     _rewards := [[1]]%Q;
     _Q := [[3 # 2]]%Q;
     _counts := [[1]]%Z;
     _regret := (0 # 4)%Q; _regrets := [0; 0 # 4]%Q; _avg_reward := [3]%Q;
     _eps := 0%Q; _temp := 0%Q; draws := 2;
     sampled := [(0, 0, 3%Q)]; ucb_calls := [] |}.

(** ** Vocabulary of the further properties *)

(** How often arm [a] of bandit [b] has been sampled so far. *)
Definition visits (s : GaussianBandits) (b a : nat) : nat :=
  length (filter (fun e => fst e = (b, a)) (sampled s)).

(** The rewards sampled so far for arm [a] of bandit [b], oldest first. *)
Definition cell_rewards (s : GaussianBandits) (b a : nat) : list Q :=
  map snd (filter (fun e => fst e = (b, a)) (sampled s)).



(** Every count is the number of visits of its cell, every estimate times
    that number is the sum of the rewards sampled for the cell, and the
    estimate of a cell never visited is the initial zero. *)
Definition eps_cells_ok (nb na : nat) (s : GaussianBandits) : Prop :=
  forall b a, b < nb -> a < na ->
    exists q,
      getitem (_Q s) b a = Ok q /\
      getitem (_counts s) b a = Ok (Z.of_nat (visits s b a)) /\
      (q * inject_Z (Z.of_nat (visits s b a)) == sumQ (cell_rewards s b a))%Q /\
      (visits s b a = 0 -> q = 0%Q).


(** A purely greedy EpsGreedy policy that has recorded no regret. *)
Definition no_regret (s : GaussianBandits) : Prop :=
  (_eps s == 0)%Q /\ (_regret s == 0)%Q /\
  Forall (fun r => (r == 0)%Q) (_regrets s).

(** * Verification *)

(** ** The error monad and the loop rule *)

Lemma bind_Ok {A B} (a : A) (f : A -> result B) : (Ok a ≫= f) = f a.
Proof. reflexivity. Qed.

Lemma bind_Ok_inv {A B} (m : result A) (f : A -> result B) (b : B) :
  (m ≫= f) = Ok b -> exists a, m = Ok a /\ f a = Ok b.
Proof. destruct m as [a|e]; [eauto | discriminate]. Qed.

(** Hoare rule of [for j in range(n)]: an invariant indexed by the number of
    iterations done, established by every body that is run, makes the loop
    return normally with the invariant at [n]. *)
Lemma for_each_seq_inv {S} (I : nat -> S -> Prop) (body : nat -> S -> result S) :
  forall n a s,
    I a s ->
    (forall j t, a <= j < a + n -> I j t ->
       exists t', body j t = Ok t' /\ I (Datatypes.S j) t') ->
    exists s', for_each (seq a n) body s = Ok s' /\ I (a + n) s'.
Proof.
  induction n as [|n IH]; intros a s Ha Hbody; simpl.
  - exists s. rewrite Nat.add_0_r. auto.
  - destruct (Hbody a s) as (t' & -> & Ht'); [lia | assumption |].
    rewrite bind_Ok.
    destruct (IH (Datatypes.S a) t') as (s' & Hs' & HI); [assumption | |].
    + intros j t Hj. apply Hbody. lia.
    + exists s'. split; [assumption |].
      replace (a + Datatypes.S n) with (Datatypes.S a + n) by lia. assumption.
Qed.

Lemma for_range_inv {S} (I : nat -> S -> Prop) (body : nat -> S -> result S) n s :
  I 0 s ->
  (forall j t, j < n -> I j t ->
     exists t', body j t = Ok t' /\ I (Datatypes.S j) t') ->
  exists s', for_each (range n) body s = Ok s' /\ I n s'.
Proof.
  intros H0 Hbody.
  destruct (for_each_seq_inv I body n 0 s H0) as (s' & ? & ?); [| eauto].
  intros j t Hj. apply Hbody. lia.
Qed.

(** ** Array access *)

Lemma getitem_Ok {A} (m : list (list A)) b a row x :
  m !! b = Some row -> row !! a = Some x -> getitem m b a = Ok x.
Proof. intros Hb Ha. unfold getitem, getrow, getidx. rewrite Hb. simpl. by rewrite Ha. Qed.

Lemma getitem_Ok_inv {A} (m : list (list A)) b a x :
  getitem m b a = Ok x -> exists row, m !! b = Some row /\ row !! a = Some x.
Proof.
  unfold getitem, getrow, getidx. destruct (m !! b) as [row|]; [|discriminate].
  simpl. destruct (row !! a) eqn:E; [|discriminate]. intros [= ->]. eauto.
Qed.

Lemma setitem_Ok {A} (m : list (list A)) b a row x y :
  m !! b = Some row -> row !! a = Some x ->
  setitem m b a y = Ok (<[b := <[a := y]> row]> m).
Proof.
  intros Hb Ha. unfold setitem, getrow. rewrite Hb. simpl.
  apply lookup_lt_Some in Ha. by rewrite decide_True.
Qed.

Lemma getitem_insert_eq {A} (m : list (list A)) b a row x y :
  m !! b = Some row -> row !! a = Some x ->
  getitem (<[b := <[a := y]> row]> m) b a = Ok y.
Proof.
  intros Hb Ha. apply getitem_Ok with (row := <[a := y]> row).
  - apply list_lookup_insert_eq. by eapply lookup_lt_Some.
  - apply list_lookup_insert_eq. by eapply lookup_lt_Some.
Qed.

Lemma shaped_lookup {A} nb na (m : list (list A)) b a :
  shaped nb na m -> b < nb -> a < na ->
  exists row x, m !! b = Some row /\ row !! a = Some x /\ length row = na.
Proof.
  intros [Hlen Hrows] Hb Ha.
  destruct (lookup_lt_is_Some_2 m b) as [row Hrow]; [lia|].
  pose proof (Forall_lookup_1 _ _ _ _ Hrows Hrow) as Hl. simpl in Hl.
  destruct (lookup_lt_is_Some_2 row a) as [x Hx]; [lia|].
  eauto.
Qed.

Lemma shaped_row {A} nb na (m : list (list A)) b row :
  shaped nb na m -> m !! b = Some row -> length row = na.
Proof. intros [_ Hrows] Hrow. exact (Forall_lookup_1 _ _ _ _ Hrows Hrow). Qed.

Lemma shaped_insert {A} nb na (m : list (list A)) b a row x :
  shaped nb na m -> m !! b = Some row ->
  shaped nb na (<[b := <[a := x]> row]> m).
Proof.
  intros Hm Hrow. pose proof (shaped_row _ _ _ _ _ Hm Hrow) as Hl.
  destruct Hm as [Hlen Hrows]. split.
  - by rewrite length_insert.
  - apply Forall_insert; [assumption|]. by rewrite length_insert.
Qed.

Lemma shaped_replicate {A} nb na (x : A) :
  shaped nb na (replicate nb (replicate na x)).
Proof.
  split; [apply length_replicate|].
  apply Forall_replicate. apply length_replicate.
Qed.

(** ** [argmax] and [max] *)

Lemma Qltb_lt x y : Qltb x y = true <-> (x < y)%Q.
Proof.
  unfold Qltb. rewrite negb_true_iff. split.
  - intros H. apply Qnot_le_lt. intros Hle.
    apply Qle_bool_iff in Hle. congruence.
  - intros H. destruct (Qle_bool y x) eqn:E; [|reflexivity].
    apply Qle_bool_iff in E. exfalso. eapply Qlt_not_le; eauto.
Qed.

Lemma Qltb_ge x y : Qltb x y = false <-> (y <= x)%Q.
Proof.
  unfold Qltb. rewrite negb_false_iff. apply Qle_bool_iff.
Qed.

Lemma argmax_from_lt best besti i xs :
  besti < i -> argmax_from best besti i xs < i + length xs.
Proof.
  revert best besti i. induction xs as [|x xs IH]; intros best besti i Hi; simpl.
  - lia.
  - destruct (Qltb best x).
    + specialize (IH x i (S i)). lia.
    + specialize (IH best besti (S i)). lia.
Qed.

Lemma argmax_Ok xs : 0 < length xs -> exists a, argmax xs = Ok a /\ a < length xs.
Proof.
  destruct xs as [|x xs]; simpl; [lia|]. intros _.
  eexists. split; [reflexivity|].
  pose proof (argmax_from_lt x 0 1 xs). lia.
Qed.

Lemma max_from_ge best xs :
  (best <= max_from best xs)%Q /\ Forall (fun x => (x <= max_from best xs)%Q) xs.
Proof.
  revert best. induction xs as [|x xs IH]; intros best; simpl.
  - split; [apply Qle_refl | constructor].
  - destruct (Qltb best x) eqn:E.
    + destruct (IH x) as [H1 H2]. apply Qltb_lt in E. split; [|constructor; auto].
      eapply Qle_trans; [apply Qlt_le_weak; eassumption | assumption].
    + destruct (IH best) as [H1 H2]. apply Qltb_ge in E. split; [assumption|].
      constructor; [|assumption]. eapply Qle_trans; eassumption.
Qed.

Lemma pymax_ge row a q :
  row !! a = Some q -> exists best, pymax row = Ok best /\ (q <= best)%Q.
Proof.
  destruct row as [|x xs]; [discriminate|]. intros Hq. simpl.
  eexists. split; [reflexivity|].
  destruct (max_from_ge x xs) as [H1 H2].
  destruct a as [|a]; simpl in Hq.
  - by injection Hq as <-.
  - exact (Forall_lookup_1 _ _ _ _ H2 Hq).
Qed.

(** ** Well-formed states and the effect of one decision *)

Lemma same_tables_wf s s' : same_tables s s' -> wf s -> wf s'.
Proof. intros [] H. unfold wf in *. congruence. Qed.

Section Effects.

Variable np : Numpy.

Lemma effect_wf pre post b a r s s' : effect np pre post b a r s s' -> wf s -> wf s'.
Proof.
  intros E (Hr & Hq & Hc).
  destruct (eff_counts _ _ _ _ _ _ _ _ E) as (crow & c & Hcrow & _ & Hc').
  destruct (eff_Q _ _ _ _ _ _ _ _ E) as (qrow & q & c' & Hqrow & _ & _ & Hq').
  unfold wf.
  rewrite (eff_nbandits _ _ _ _ _ _ _ _ E), (eff_narms _ _ _ _ _ _ _ _ E),
    (eff_rewards _ _ _ _ _ _ _ _ E), Hc', Hq'.
  split; [assumption|]. split; by apply shaped_insert.
Qed.

Lemma get_reward_Ok b a s mrow mu :
  _rewards s !! b = Some mrow -> mrow !! a = Some mu ->
  get_reward np b a s =
    Ok (normal np (draws s) mu,
        set_sampled (sampled s ++ [(b, a, normal np (draws s) mu)]) (tick s)).
Proof.
  intros Hb Ha. unfold get_reward. by rewrite (getitem_Ok _ _ _ _ _ Hb Ha).
Qed.

Lemma incr_counts_Ok b a s crow c :
  _counts s !! b = Some crow -> crow !! a = Some c ->
  incr_counts b a s =
    Ok (set_counts (<[b := <[a := (c + 1)%Z]> crow]> (_counts s)) s).
Proof.
  intros Hb Ha. unfold incr_counts.
  rewrite (getitem_Ok _ _ _ _ _ Hb Ha). simpl.
  by rewrite (setitem_Ok _ _ _ _ _ _ Hb Ha).
Qed.

Lemma update_Q_Ok b a r s qrow q crow c :
  _Q s !! b = Some qrow -> qrow !! a = Some q ->
  _counts s !! b = Some crow -> crow !! a = Some c ->
  update_Q b a r s =
    Ok (set_Q (<[b := <[a := (q + (r - q) / (inject_Z c + 1))%Q]> qrow]> (_Q s)) s).
Proof.
  intros Hb Ha Hcb Hca. unfold update_Q.
  rewrite (getitem_Ok _ _ _ _ _ Hb Ha). simpl.
  rewrite (getitem_Ok _ _ _ _ _ Hcb Hca). simpl.
  by rewrite (setitem_Ok _ _ _ _ _ _ Hb Ha).
Qed.

Lemma update_regret_Ok b a s qrow q :
  _Q s !! b = Some qrow -> qrow !! a = Some q ->
  exists gap, (0 <= gap)%Q /\
    update_regret b a s =
      Ok (set_regret (_regret s + gap)%Q (_regrets s ++ [(_regret s + gap)%Q]) s).
Proof.
  intros Hb Ha. destruct (pymax_ge _ _ _ Ha) as (best & Hbest & Hle).
  exists (best - q)%Q. split.
  - apply (Qplus_le_l _ _ q). ring_simplify. assumption.
  - unfold update_regret, getrow, getidx. rewrite Hb. simpl.
    rewrite Hbest. simpl. by rewrite Ha.
Qed.

(** The body of EpsGreedy's bandit loop, once [get_action] has chosen [a]. *)
Lemma decide_for_effect b R s a s1 :
  EpsGreedy.get_action np b s = Ok (a, s1) -> same_tables s s1 ->
  wf s -> b < _nbandits s -> a < _narms s ->
  exists r s',
    EpsGreedy.decide_for np b (R, s) = Ok (R ++ [r], s') /\
    effect np 0 1 b a r s1 s'.
Proof.
  intros Hget Hsame Hwf Hb Ha.
  apply (same_tables_wf _ _ Hsame) in Hwf. destruct Hwf as (Hr & Hq & Hc).
  rewrite <- (st_nbandits _ _ Hsame) in Hb. rewrite <- (st_narms _ _ Hsame) in Ha.
  destruct (shaped_lookup _ _ _ b a Hr Hb Ha) as (mrow & mu & Hmrow & Hmu & _).
  destruct (shaped_lookup _ _ _ b a Hq Hb Ha) as (qrow & q & Hqrow & Hqa & _).
  destruct (shaped_lookup _ _ _ b a Hc Hb Ha) as (crow & c & Hcrow & Hca & _).
  unfold EpsGreedy.decide_for. rewrite Hget. simpl.
  rewrite (get_reward_Ok _ _ _ _ _ Hmrow Hmu). simpl.
  set (r := normal np (draws s1) mu).
  set (s2 := set_sampled _ _).
  destruct (update_regret_Ok b a s2 qrow q Hqrow Hqa) as (gap & Hgap & ->). simpl.
  set (s3 := set_regret _ _ _).
  rewrite (update_Q_Ok b a r s3 qrow q crow c Hqrow Hqa Hcrow Hca). simpl.
  set (s4 := set_Q _ _).
  rewrite (incr_counts_Ok b a s4 crow c Hcrow Hca). simpl.
  eexists _, _. split; [reflexivity|].
  constructor; simpl; try reflexivity.
  - exists mu. split; [by eapply getitem_Ok | reflexivity].
  - exists crow, c. repeat split; try assumption.
    by replace (c + 0 + 1)%Z with (c + 1)%Z by lia.
  - exists qrow, q, c. repeat split; try assumption.
    + by eapply getitem_Ok.
    + by replace (c + 0)%Z with c by lia.
  - exists gap. auto.
Qed.

(** The body of the arm loop of [initial_run]. *)
Lemma visit_arm_effect b a R s :
  wf s -> b < _nbandits s -> a < _narms s ->
  exists r s',
    visit_arm np b a (R, s) = Ok (R ++ [r], s') /\ effect np 1 0 b a r s s'.
Proof.
  intros (Hr & Hq & Hc) Hb Ha.
  destruct (shaped_lookup _ _ _ b a Hr Hb Ha) as (mrow & mu & Hmrow & Hmu & _).
  destruct (shaped_lookup _ _ _ b a Hq Hb Ha) as (qrow & q & Hqrow & Hqa & _).
  destruct (shaped_lookup _ _ _ b a Hc Hb Ha) as (crow & c & Hcrow & Hca & _).
  pose proof (lookup_lt_Some _ _ _ Hcrow) as Hbl.
  pose proof (lookup_lt_Some _ _ _ Hca) as Hal.
  pose proof (lookup_lt_Some _ _ _ Hqrow) as Hbq.
  pose proof (lookup_lt_Some _ _ _ Hqa) as Haq.
  unfold visit_arm.
  rewrite (incr_counts_Ok b a s crow c Hcrow Hca). simpl.
  set (s1 := set_counts _ _).
  rewrite (get_reward_Ok b a s1 mrow mu Hmrow Hmu). simpl.
  set (r := normal np (draws s) mu).
  set (s2 := set_sampled _ _).
  rewrite (update_Q_Ok b a r s2 qrow q (<[a := (c + 1)%Z]> crow) (c + 1)%Z);
    [| assumption | assumption
     | simpl; by apply list_lookup_insert_eq
     | by apply list_lookup_insert_eq ].
  simpl. set (q' := (q + (r - q) / (inject_Z (c + 1) + 1))%Q).
  set (s3 := set_Q _ _).
  destruct (update_regret_Ok b a s3 (<[a := q']> qrow) q') as (gap & Hgap & ->);
    [ simpl; by apply list_lookup_insert_eq
    | by apply list_lookup_insert_eq | ].
  simpl. eexists _, _. split; [reflexivity|].
  constructor; simpl; try reflexivity.
  - exists mu. split; [by eapply getitem_Ok | reflexivity].
  - exists crow, c. repeat split; try assumption.
    by replace (c + 1 + 0)%Z with (c + 1)%Z by lia.
  - exists qrow, q, c. repeat split; try assumption.
    by eapply getitem_Ok.
  - exists gap. auto.
Qed.

(** The body of the bandit loop of the counted [one_step], once
    [get_action] has chosen [a]. *)
Lemma decide_counted_effect get_action i b R s a s1 :
  get_action i b s = Ok (a, s1) -> same_tables s s1 ->
  wf s -> b < _nbandits s -> a < _narms s ->
  exists r s',
    decide_counted np get_action i b (R, s) = Ok (R ++ [r], s') /\
    effect np 1 1 b a r s1 s'.
Proof.
  intros Hget Hsame Hwf Hb Ha.
  apply (same_tables_wf _ _ Hsame) in Hwf. destruct Hwf as (Hr & Hq & Hc).
  rewrite <- (st_nbandits _ _ Hsame) in Hb. rewrite <- (st_narms _ _ Hsame) in Ha.
  destruct (shaped_lookup _ _ _ b a Hr Hb Ha) as (mrow & mu & Hmrow & Hmu & _).
  destruct (shaped_lookup _ _ _ b a Hq Hb Ha) as (qrow & q & Hqrow & Hqa & _).
  destruct (shaped_lookup _ _ _ b a Hc Hb Ha) as (crow & c & Hcrow & Hca & _).
  pose proof (lookup_lt_Some _ _ _ Hcrow) as Hbl.
  pose proof (lookup_lt_Some _ _ _ Hca) as Hal.
  pose proof (lookup_lt_Some _ _ _ Hqrow) as Hbq.
  pose proof (lookup_lt_Some _ _ _ Hqa) as Haq.
  unfold decide_counted. rewrite Hget. simpl.
  rewrite (incr_counts_Ok b a s1 crow c Hcrow Hca). simpl.
  set (s2 := set_counts _ _).
  rewrite (get_reward_Ok b a s2 mrow mu Hmrow Hmu). simpl.
  set (r := normal np (draws s1) mu).
  set (s3 := set_sampled _ _).
  rewrite (update_Q_Ok b a r s3 qrow q (<[a := (c + 1)%Z]> crow) (c + 1)%Z);
    [| assumption | assumption
     | simpl; by apply list_lookup_insert_eq
     | by apply list_lookup_insert_eq ].
  simpl. set (q' := (q + (r - q) / (inject_Z (c + 1) + 1))%Q).
  set (s4 := set_Q _ _).
  rewrite (incr_counts_Ok b a s4 (<[a := (c + 1)%Z]> crow) (c + 1)%Z);
    [| simpl; by apply list_lookup_insert_eq
     | by apply list_lookup_insert_eq ].
  simpl. set (s5 := set_counts _ _).
  destruct (update_regret_Ok b a s5 (<[a := q']> qrow) q') as (gap & Hgap & ->);
    [ simpl; by apply list_lookup_insert_eq
    | by apply list_lookup_insert_eq | ].
  simpl. eexists _, _. split; [reflexivity|].
  constructor; simpl; try reflexivity.
  - exists mu. split; [by eapply getitem_Ok | reflexivity].
  - exists crow, c. repeat split; try assumption.
    by rewrite !list_insert_insert_eq.
  - exists qrow, q, c. repeat split; try assumption.
    by eapply getitem_Ok.
  - exists gap. auto.
Qed.

End Effects.

(** ** The three [get_action] methods return an arm in range *)

Lemma same_tables_dims nb na s s' : same_tables s s' -> dims nb na s -> dims nb na s'.
Proof.
  intros H (Hb & Ha & Hwf). split; [|split].
  - by rewrite (st_nbandits _ _ H).
  - by rewrite (st_narms _ _ H).
  - by eapply same_tables_wf.
Qed.

Lemma effect_dims np pre post b a r nb na s s' :
  effect np pre post b a r s s' -> dims nb na s -> dims nb na s'.
Proof.
  intros E (Hb & Ha & Hwf). split; [|split].
  - by rewrite (eff_nbandits _ _ _ _ _ _ _ _ E).
  - by rewrite (eff_narms _ _ _ _ _ _ _ _ E).
  - by eapply effect_wf.
Qed.

Lemma eps_get_action_Ok np b s :
  NumpyOk np -> wf s -> b < _nbandits s -> 0 < _narms s ->
  exists a s1,
    EpsGreedy.get_action np b s = Ok (a, s1) /\ a < _narms s /\ same_tables s s1.
Proof.
  intros Hnp (_ & Hq & _) Hb Ha. unfold EpsGreedy.get_action.
  destruct (Qltb _ _).
  - rewrite decide_False by (simpl; lia).
    eexists _, _. split; [reflexivity|]. split.
    + simpl. by apply (randint_range np Hnp).
    + by constructor.
  - destruct (shaped_lookup _ _ _ b 0 Hq Hb Ha) as (row & x & Hrow & _ & Hlen).
    unfold getrow. simpl. rewrite Hrow. simpl.
    destruct (argmax_Ok row) as (a & -> & Hlt); [lia|]. simpl.
    eexists _, _. split; [reflexivity|]. split; [lia|]. by constructor.
Qed.

Lemma ucb_get_action_Ok np t b s :
  wf s -> b < _nbandits s -> 0 < _narms s ->
  exists a crow,
    _counts s !! b = Some crow /\
    UCB.get_action np t b s =
      Ok (a, set_ucb_calls (ucb_calls s ++ [(t, crow)]) s) /\
    a < _narms s.
Proof.
  intros (_ & Hq & Hc) Hb Ha. unfold UCB.get_action.
  destruct (shaped_lookup _ _ _ b 0 Hq Hb Ha) as (qrow & x & Hqrow & _ & Hql).
  destruct (shaped_lookup _ _ _ b 0 Hc Hb Ha) as (crow & y & Hcrow & _ & Hcl).
  unfold getrow. rewrite Hqrow, Hcrow. simpl.
  match goal with |- context [argmax ?l] =>
    destruct (argmax_Ok l) as (a & -> & Hlt) end.
  { rewrite length_zip_with, length_map. lia. }
  rewrite length_zip_with, length_map in Hlt. simpl.
  exists a, crow. split; [reflexivity|]. split; [reflexivity | lia].
Qed.

Lemma ucb_get_action_same np t b s a s1 :
  UCB.get_action np t b s = Ok (a, s1) -> same_tables s s1.
Proof.
  unfold UCB.get_action. intros H.
  apply bind_Ok_inv in H as (q & _ & H).
  apply bind_Ok_inv in H as (c & _ & H).
  apply bind_Ok_inv in H as (a' & _ & H).
  injection H as _ <-. by constructor.
Qed.

(** ** SoftmaxActionSelection.softmax *)

Lemma sumQ_map_div (e : list Q) (t : Q) :
  (sumQ (map (fun v => v / t) e) == sumQ e / t)%Q.
Proof.
  induction e as [|x e IH]; simpl.
  - unfold Qdiv. ring.
  - rewrite IH. unfold Qdiv. ring.
Qed.

Lemma sumQ_nonneg (e : list Q) :
  Forall (fun v => (0 < v)%Q) e -> (0 <= sumQ e)%Q.
Proof.
  induction 1 as [|x e Hx _ IH]; simpl; [apply Qle_refl|].
  rewrite <- (Qplus_0_r 0). apply Qplus_le_compat; [by apply Qlt_le_weak | assumption].
Qed.

Lemma sumQ_pos (e : list Q) :
  Forall (fun v => (0 < v)%Q) e -> 0 < length e -> (0 < sumQ e)%Q.
Proof.
  intros He Hlen. destruct He as [|x e Hx He]; simpl in *; [lia|].
  rewrite <- (Qplus_0_r 0). apply Qplus_lt_le_compat; [assumption|].
  by apply sumQ_nonneg.
Qed.

Lemma sumQ_ge_each (e : list Q) :
  Forall (fun v => (0 < v)%Q) e -> Forall (fun v => (v <= sumQ e)%Q) e.
Proof.
  induction 1 as [|x e Hx He IH]; simpl; constructor.
  - rewrite <- (Qplus_0_r x) at 1. apply Qplus_le_r. by apply sumQ_nonneg.
  - eapply Forall_impl; [exact IH|]. intros v Hv. simpl in Hv.
    eapply Qle_trans; [exact Hv|].
    rewrite <- (Qplus_0_l (sumQ e)) at 1. apply Qplus_le_l. by apply Qlt_le_weak.
Qed.

Lemma fdiv_Fin (x y : Q) : ~ (y == 0)%Q -> fdiv (Fin x) (Fin y) = Fin (x / y).
Proof.
  intros Hy. unfold fdiv. destruct (Qeq_bool y 0) eqn:E; [|reflexivity].
  apply Qeq_bool_iff in E. contradiction.
Qed.

Lemma fsum_Fin (e : list Q) : fsum (map Fin e) = Fin (sumQ e).
Proof.
  induction e as [|x e IH]; [reflexivity|].
  change (fadd (Fin x) (fsum (map Fin e)) = Fin (x + sumQ e)). by rewrite IH.
Qed.

Lemma finite_Fin (p : list Q) : finite (map Fin p) = Some p.
Proof.
  induction p as [|x p IH]; [reflexivity|].
  change (match finite (map Fin p) with
          | Some qs => Some (x :: qs)
          | None => None
          end = Some (x :: p)).
  by rewrite IH.
Qed.

Lemma map_fdiv_Fin (e : list Q) (t : Q) :
  ~ (t == 0)%Q ->
  map (fun v => fdiv v (Fin t)) (map Fin e) = map Fin (map (fun v => (v / t)%Q) e).
Proof.
  intros Ht. induction e as [|x e IH]; [reflexivity|].
  cbn [map]. by rewrite IH, fdiv_Fin.
Qed.

(** Away from temperature 0 and without overflow the exponentials are
    positive floats. *)
Lemma exp_defined_finite_on np temp x : exp_defined np -> exp_finite_on np temp x.
Proof. intros Hexp. apply List.Forall_forall. intros v _. apply Hexp. Qed.

Lemma softmax_exponentials np temp x :
  exp_finite_on np temp x -> ~ (temp == 0)%Q ->
  exists e,
    map (fun v => SoftmaxActionSelection.fexp np (fdiv (Fin v) (Fin temp))) x
      = map Fin e /\
    length e = length x /\ Forall (fun v => (0 < v)%Q) e.
Proof.
  intros Hexp Ht.
  induction Hexp as [|v x (ev & Hev & Hev0) _ (e & He & Hlen & Hpos)].
  - by exists [].
  - exists (ev :: e). cbn [map length]. rewrite He, Hlen, fdiv_Fin by assumption.
    unfold SoftmaxActionSelection.fexp. rewrite Hev.
    split; [reflexivity|]. split; [reflexivity|]. by constructor.
Qed.

Lemma softmax_distribution np temp x :
  exp_finite_on np temp x -> ~ (temp == 0)%Q -> 0 < length x ->
  exists p,
    SoftmaxActionSelection.softmax np temp x = map Fin p /\
    length p = length x /\
    Forall (fun q => (0 < q)%Q /\ (q <= 1)%Q) p /\
    (sumQ p == 1)%Q.
Proof.
  intros Hexp Ht Hlen.
  destruct (softmax_exponentials np temp x Hexp Ht) as (e & He & Hle & Hpos).
  assert (0 < sumQ e)%Q as Htotal by (apply sumQ_pos; [assumption | lia]).
  assert (~ (sumQ e == 0)%Q) as Hne.
  { intros H0. rewrite H0 in Htotal. by apply Qlt_irrefl in Htotal. }
  exists (map (fun v => (v / sumQ e)%Q) e).
  split; [|split; [|split]].
  - unfold SoftmaxActionSelection.softmax. rewrite He. cbv zeta.
    rewrite fsum_Fin. by apply map_fdiv_Fin.
  - by rewrite length_map.
  - pose proof (sumQ_ge_each e Hpos) as Hall.
    apply List.Forall_forall. intros q Hq.
    apply in_map_iff in Hq as (v & <- & Hv).
    pose proof (proj1 (List.Forall_forall _ _) Hpos v Hv) as Hv0.
    pose proof (proj1 (List.Forall_forall _ _) Hall v Hv) as Hv1.
    simpl in Hv0, Hv1. split.
    + apply Qlt_shift_div_l; [assumption|]. by rewrite Qmult_0_l.
    + apply Qle_shift_div_r; [assumption|]. by rewrite Qmult_1_l.
  - rewrite sumQ_map_div. by field.
Qed.

(** At temperature 0 every exponential is [nan], [inf] or 0. *)
Lemma softmax_exponentials_at_zero np temp x :
  (temp == 0)%Q ->
  Forall (fun f => f = NaN \/ f = PInf \/ f = Fin 0)
    (map (fun v => SoftmaxActionSelection.fexp np (fdiv (Fin v) (Fin temp))) x).
Proof.
  intros Ht. apply Qeq_bool_iff in Ht.
  induction x as [|v x IH]; cbn [map]; constructor; [|assumption].
  unfold fdiv. rewrite Ht.
  destruct (Qeq_bool v 0); [by left|].
  destruct (Qle_bool 0 v); [right; by left | right; by right].
Qed.

Lemma fsum_at_zero (e : list npfloat) :
  Forall (fun f => f = NaN \/ f = PInf \/ f = Fin 0) e ->
  fsum e = NaN \/ fsum e = PInf \/ exists t, fsum e = Fin t /\ (t == 0)%Q.
Proof.
  induction 1 as [|f e Hf _ IH].
  - right. right. by exists 0%Q.
  - change (fsum (f :: e)) with (fadd f (fsum e)).
    destruct Hf as [-> | [-> | ->]], IH as [-> | [-> | (t & -> & Ht)]]; simpl;
      try (by left); try (right; by left).
    right. right. eexists. split; [reflexivity|]. rewrite Ht. reflexivity.
Qed.

Lemma finite_fdiv_PInf (e : list npfloat) :
  Forall (fun f => f = NaN \/ f = PInf \/ f = Fin 0) e ->
  fsum e = PInf -> finite (map (fun v => fdiv v PInf) e) = None.
Proof.
  induction 1 as [|f e Hf _ IH]; [discriminate|].
  change (fsum (f :: e)) with (fadd f (fsum e)). intros Hsum.
  destruct Hf as [-> | [-> | ->]]; [reflexivity | reflexivity |].
  cbn [map]. change (fdiv (Fin 0) PInf) with (Fin 0). cbn [finite].
  rewrite IH; [reflexivity|].
  destruct (fsum e); simpl in Hsum; congruence.
Qed.

(** At temperature 0 the probabilities of a non-empty row hold a [nan] or an
    infinity. *)
Lemma softmax_at_zero np temp x :
  (temp == 0)%Q -> 0 < length x ->
  finite (SoftmaxActionSelection.softmax np temp x) = None.
Proof.
  intros Ht Hlen. unfold SoftmaxActionSelection.softmax. cbv zeta.
  pose proof (softmax_exponentials_at_zero np temp x Ht) as He.
  assert (0 < length (map (fun v =>
            SoftmaxActionSelection.fexp np (fdiv (Fin v) (Fin temp))) x)) as Hl
    by (by rewrite length_map).
  revert He Hl.
  generalize (map (fun v =>
                SoftmaxActionSelection.fexp np (fdiv (Fin v) (Fin temp))) x).
  intros e He Hl.
  destruct (fsum_at_zero e He) as [Hs | [Hs | (t & Hs & Ht0)]].
  - rewrite Hs. destruct He as [|f e Hf _]; [simpl in Hl; lia|].
    cbn [map]. by destruct Hf as [-> | [-> | ->]].
  - rewrite Hs. by apply finite_fdiv_PInf.
  - rewrite Hs. apply Qeq_bool_iff in Ht0.
    destruct He as [|f e Hf _]; [simpl in Hl; lia|].
    cbn [map]. destruct Hf as [-> | [-> | ->]]; [reflexivity | |].
    + unfold fdiv. by destruct (Qle_bool 0 t).
    + unfold fdiv. rewrite Ht0.
      change (Qeq_bool 0 0) with true. reflexivity.
Qed.

Lemma softmax_get_action_Ok np b s :
  NumpyOk np ->
  (forall row, _Q s !! b = Some row -> exp_finite_on np (_temp s) row) ->
  ~ (_temp s == 0)%Q ->
  wf s -> b < _nbandits s -> 0 < _narms s ->
  exists a s1,
    SoftmaxActionSelection.get_action np b s = Ok (a, s1) /\
    a < _narms s /\ same_tables s s1.
Proof.
  intros Hnp Hexp Ht (_ & Hq & _) Hb Ha.
  unfold SoftmaxActionSelection.get_action.
  destruct (shaped_lookup _ _ _ b 0 Hq Hb Ha) as (row & x & Hrow & _ & Hlen).
  unfold getrow. rewrite Hrow. simpl.
  rewrite decide_False by lia.
  destruct (softmax_distribution np (_temp s) row (Hexp row Hrow) Ht)
    as (p & -> & Hlp & Hp & Hsum); [lia|].
  rewrite finite_Fin.
  assert (SoftmaxActionSelection.valid_probabilities (_narms s) p = true) as ->.
  { unfold SoftmaxActionSelection.valid_probabilities.
    apply andb_true_intro. split; [apply andb_true_intro; split|].
    - apply Nat.eqb_eq. lia.
    - apply forallb_forall. intros q Hq0.
      apply Qle_bool_iff, Qlt_le_weak.
      by apply (proj1 (List.Forall_forall _ _) Hp q).
    - by apply Qeq_bool_iff. }
  eexists _, _. split; [reflexivity|]. split; [| by constructor].
  rewrite <- Hlen, <- Hlp. apply (choice_range np Hnp). lia.
Qed.

(** With temperature 0, [np.random.choice] is handed a [nan]. *)
Lemma softmax_get_action_at_zero np b s :
  (_temp s == 0)%Q -> wf s -> b < _nbandits s -> 0 < _narms s ->
  SoftmaxActionSelection.get_action np b s = Raise ValueError.
Proof.
  intros Ht (_ & Hq & _) Hb Ha.
  unfold SoftmaxActionSelection.get_action.
  destruct (shaped_lookup _ _ _ b 0 Hq Hb Ha) as (row & x & Hrow & _ & Hlen).
  unfold getrow. rewrite Hrow. simpl.
  rewrite decide_False by lia.
  rewrite softmax_at_zero; [reflexivity | assumption | lia].
Qed.

(** ** Lifting invariants through the loops *)

Lemma chooses_ucb np : chooses (UCB.get_action np).
Proof.
  intros i b s Hwf Hb Ha.
  destruct (ucb_get_action_Ok np i b s Hwf Hb Ha) as (a & crow & _ & H & Hlt).
  eexists _, _. split; [exact H|]. split; [assumption|].
  by eapply ucb_get_action_same.
Qed.

Lemma chooses_softmax np T :
  NumpyOk np -> exp_defined np -> ~ (T == 0)%Q ->
  chooses (at_temperature T (fun _ => SoftmaxActionSelection.get_action np)).
Proof.
  intros Hnp Hexp HT i b s Hwf Hb Ha. unfold at_temperature.
  destruct (Qeq_bool (_temp s) T) eqn:E.
  - apply softmax_get_action_Ok; try assumption.
    + intros row _. by apply exp_defined_finite_on.
    + apply Qeq_bool_iff in E. intros H0. apply HT. by rewrite <- E.
  - eexists _, _. split; [reflexivity|]. split; [assumption | by constructor].
Qed.

(** ** A run stays at its temperature *)

Lemma for_each_preserves {A S} (P : S -> Prop) (body : A -> S -> result S) xs :
  (forall x t t', P t -> body x t = Ok t' -> P t') ->
  forall s s', P s -> for_each xs body s = Ok s' -> P s'.
Proof.
  intros Hbody. induction xs as [|x xs IH]; intros s s' Hs H; simpl in H.
  - by injection H as <-.
  - apply bind_Ok_inv in H as (t & Ht & H). eauto.
Qed.

Lemma for_each_agree {A S} (P : S -> Prop) (body body' : A -> S -> result S) xs :
  (forall x t, P t -> body' x t = body x t) ->
  (forall x t t', P t -> body x t = Ok t' -> P t') ->
  forall s, P s -> for_each xs body' s = for_each xs body s.
Proof.
  intros Heq Hbody. induction xs as [|x xs IH]; intros s Hs; simpl; [reflexivity|].
  rewrite Heq by assumption.
  destruct (body x s) as [t|e] eqn:E; simpl; [|reflexivity].
  apply IH. eauto.
Qed.

Lemma incr_counts_temp b a s s' :
  incr_counts b a s = Ok s' -> _temp s' = _temp s.
Proof.
  unfold incr_counts. intros H.
  apply bind_Ok_inv in H as (c & _ & H).
  apply bind_Ok_inv in H as (m & _ & H).
  by injection H as <-.
Qed.

Lemma get_reward_temp np b a s r s' :
  get_reward np b a s = Ok (r, s') -> _temp s' = _temp s.
Proof.
  unfold get_reward. intros H.
  apply bind_Ok_inv in H as (mu & _ & H).
  by injection H as _ <-.
Qed.

Lemma update_Q_temp b a r s s' :
  update_Q b a r s = Ok s' -> _temp s' = _temp s.
Proof.
  unfold update_Q. intros H.
  apply bind_Ok_inv in H as (q & _ & H).
  apply bind_Ok_inv in H as (c & _ & H).
  apply bind_Ok_inv in H as (m & _ & H).
  by injection H as <-.
Qed.

Lemma update_regret_temp b a s s' :
  update_regret b a s = Ok s' -> _temp s' = _temp s.
Proof.
  unfold update_regret. intros H.
  apply bind_Ok_inv in H as (row & _ & H).
  apply bind_Ok_inv in H as (best & _ & H).
  apply bind_Ok_inv in H as (q & _ & H).
  by injection H as <-.
Qed.

Lemma visit_arm_temp np b a R s R' s' :
  visit_arm np b a (R, s) = Ok (R', s') -> _temp s' = _temp s.
Proof.
  unfold visit_arm. intros H.
  apply bind_Ok_inv in H as (s1 & H1 & H).
  apply bind_Ok_inv in H as ([r s2] & H2 & H).
  apply bind_Ok_inv in H as (s3 & H3 & H).
  apply bind_Ok_inv in H as (s4 & H4 & H).
  injection H as _ <-.
  rewrite (update_regret_temp _ _ _ _ H4), (update_Q_temp _ _ _ _ _ H3),
    (get_reward_temp _ _ _ _ _ _ H2).
  by apply incr_counts_temp in H1.
Qed.

Lemma initial_run_temp np s s' :
  initial_run np s = Ok s' -> _temp s' = _temp s.
Proof.
  unfold initial_run.
  apply (for_each_preserves (fun t => _temp t = _temp s)); [|reflexivity].
  intros b t t' Ht H. unfold visit_bandit in H.
  apply bind_Ok_inv in H as ([R u] & Hu & H). injection H as <-.
  cbn [_temp set_avg_reward].
  apply (for_each_preserves (fun p => _temp (snd p) = _temp s)
           (visit_arm np b) _) in Hu; [exact Hu | | exact Ht].
  intros a [R1 u1] [R2 u2] H1 H2. cbn [snd] in *.
  by rewrite (visit_arm_temp _ _ _ _ _ _ _ H2).
Qed.

Section AtTemperature.

Variable np : Numpy.
Variable T : Q.
Variable get_action :
  nat -> nat -> GaussianBandits -> result (nat * GaussianBandits).
Hypothesis get_action_temp :
  forall i b s a s1, get_action i b s = Ok (a, s1) -> _temp s1 = _temp s.

Lemma decide_counted_temp i b R s R' s' :
  decide_counted np get_action i b (R, s) = Ok (R', s') -> _temp s' = _temp s.
Proof.
  unfold decide_counted. intros H.
  apply bind_Ok_inv in H as ([a s0] & H0 & H).
  apply bind_Ok_inv in H as (s1 & H1 & H).
  apply bind_Ok_inv in H as ([r s2] & H2 & H).
  apply bind_Ok_inv in H as (s3 & H3 & H).
  apply bind_Ok_inv in H as (s4 & H4 & H).
  apply bind_Ok_inv in H as (s5 & H5 & H).
  injection H as _ <-.
  rewrite (update_regret_temp _ _ _ _ H5), (incr_counts_temp _ _ _ _ H4),
    (update_Q_temp _ _ _ _ _ H3), (get_reward_temp _ _ _ _ _ _ H2),
    (incr_counts_temp _ _ _ _ H1).
  by apply get_action_temp in H0.
Qed.

Lemma one_step_counted_temp i s R s' :
  one_step_counted np get_action i s = Ok (R, s') -> _temp s' = _temp s.
Proof.
  unfold one_step_counted. intros H.
  apply (for_each_preserves (fun p => _temp (snd p) = _temp s)
           (decide_counted np get_action i) _) in H; [exact H | | reflexivity].
  intros b [R1 u1] [R2 u2] H1 H2. cbn [snd] in *.
  by rewrite (decide_counted_temp _ _ _ _ _ _ H2).
Qed.

Lemma one_step_counted_at_temperature i s :
  Qeq_bool (_temp s) T = true ->
  one_step_counted np (at_temperature T get_action) i s
    = one_step_counted np get_action i s.
Proof.
  intros Hs. unfold one_step_counted.
  apply (for_each_agree (fun p => _temp (snd p) = _temp s)); [| |reflexivity].
  - intros b [R u] Hu. cbn [snd] in Hu.
    unfold decide_counted, at_temperature. by rewrite Hu, Hs.
  - intros b [R1 u1] [R2 u2] H1 H2. cbn [snd] in *.
    by rewrite (decide_counted_temp _ _ _ _ _ _ H2).
Qed.

Lemma main_loop_at_temperature n s :
  Qeq_bool (_temp s) T = true ->
  main_loop (one_step_counted np (at_temperature T get_action)) n s
    = main_loop (one_step_counted np get_action) n s.
Proof.
  intros Hs. unfold main_loop.
  apply (for_each_agree (fun t => _temp t = _temp s)); [| |reflexivity].
  - intros i t Ht. unfold timestep.
    rewrite one_step_counted_at_temperature; [reflexivity | by rewrite Ht].
  - intros i t t' Ht H. unfold timestep in H.
    apply bind_Ok_inv in H as ([R u] & Hu & H). injection H as <-.
    cbn [_temp set_avg_reward].
    by rewrite (one_step_counted_temp _ _ _ _ Hu).
Qed.

Lemma learn_warm_at_temperature n s :
  Qeq_bool (_temp s) T = true ->
  learn_warm np (at_temperature T get_action) n s = learn_warm np get_action n s.
Proof.
  intros Hs. unfold learn_warm.
  destruct (initial_run np s) as [s1|e] eqn:E; simpl; [|reflexivity].
  apply main_loop_at_temperature. by rewrite (initial_run_temp _ _ _ E).
Qed.

End AtTemperature.

Lemma softmax_get_action_temp np (i b : nat) s a s1 :
  SoftmaxActionSelection.get_action np b s = Ok (a, s1) -> _temp s1 = _temp s.
Proof.
  unfold SoftmaxActionSelection.get_action. intros H.
  apply bind_Ok_inv in H as (row & _ & H).
  destruct (decide (_narms s = 0)); [discriminate|].
  destruct (finite _) as [p|]; [|discriminate].
  destruct (SoftmaxActionSelection.valid_probabilities _ p); [|discriminate].
  by injection H as _ <-.
Qed.

(** The runs of SoftmaxActionSelection at temperature [T]. *)
Lemma softmax_learn_at_temperature np T n s :
  (_temp s == T)%Q ->
  learn_warm np (at_temperature T (fun _ => SoftmaxActionSelection.get_action np)) n s
    = SoftmaxActionSelection.learn np n s.
Proof.
  intros Hs. apply learn_warm_at_temperature; [|by apply Qeq_bool_iff].
  intros i. apply softmax_get_action_temp. exact i.
Qed.

Section Lifting.

Variable np : Numpy.
Variables nb na : nat.

(** EpsGreedy.one_step. *)
Lemma eps_one_step_inv (I : nat -> list Q -> GaussianBandits -> Prop) i s :
  NumpyOk np -> 0 < na -> dims nb na s -> I 0 [] s ->
  (forall b R t a t1 r t',
     b < nb -> dims nb na t -> I b R t ->
     EpsGreedy.get_action np b t = Ok (a, t1) -> a < na -> same_tables t t1 ->
     effect np 0 1 b a r t1 t' -> I (S b) (R ++ [r]) t') ->
  exists R s',
    EpsGreedy.one_step np i s = Ok (R, s') /\ dims nb na s' /\ I nb R s'.
Proof.
  intros Hnp Hna Hs H0 Hstep. unfold EpsGreedy.one_step.
  destruct Hs as (Hnb & Hna' & Hwf). rewrite Hnb.
  destruct (for_range_inv
              (fun j acc => dims nb na acc.2 /\ I j acc.1 acc.2)
              (EpsGreedy.decide_for np) nb ([], s)) as ([R s'] & Hrun & Hd & HI).
  - simpl. split; [split; [|split]|]; assumption.
  - intros b [R t] Hb [Hd HI]. simpl in Hd, HI.
    pose proof Hd as (Hnbt & Hnat & Hwft).
    destruct (eps_get_action_Ok np b t Hnp Hwft) as (a & t1 & Hget & Ha & Hsame);
      [lia | lia |].
    destruct (decide_for_effect np b R t a t1 Hget Hsame Hwft) as (r & t' & Hrun & E);
      [lia | lia |].
    exists (R ++ [r], t'). split; [assumption|]. simpl. split.
    + eapply effect_dims; [eassumption|]. by eapply same_tables_dims.
    + eapply Hstep; eauto. lia.
  - exists R, s'. auto.
Qed.

(** The counted [one_step] of UCB and SoftmaxActionSelection. *)
Lemma one_step_counted_inv get_action
    (I : nat -> list Q -> GaussianBandits -> Prop) i s :
  chooses get_action -> 0 < na -> dims nb na s -> I 0 [] s ->
  (forall b R t a t1 r t',
     b < nb -> dims nb na t -> I b R t ->
     get_action i b t = Ok (a, t1) -> a < na -> same_tables t t1 ->
     effect np 1 1 b a r t1 t' -> I (S b) (R ++ [r]) t') ->
  exists R s',
    one_step_counted np get_action i s = Ok (R, s') /\ dims nb na s' /\ I nb R s'.
Proof.
  intros Hch Hna Hs H0 Hstep. unfold one_step_counted.
  destruct Hs as (Hnb & Hna' & Hwf). rewrite Hnb.
  destruct (for_range_inv
              (fun j acc => dims nb na acc.2 /\ I j acc.1 acc.2)
              (decide_counted np get_action i) nb ([], s))
    as ([R s'] & Hrun & Hd & HI).
  - simpl. split; [split; [|split]|]; assumption.
  - intros b [R t] Hb [Hd HI]. simpl in Hd, HI.
    pose proof Hd as (Hnbt & Hnat & Hwft).
    destruct (Hch i b t Hwft) as (a & t1 & Hget & Ha & Hsame); [lia | lia |].
    destruct (decide_counted_effect np get_action i b R t a t1 Hget Hsame Hwft)
      as (r & t' & Hrun & E); [lia | lia |].
    exists (R ++ [r], t'). split; [assumption|]. simpl. split.
    + eapply effect_dims; [eassumption|]. by eapply same_tables_dims.
    + eapply Hstep; eauto. lia.
  - exists R, s'. auto.
Qed.

(** The arm loop of [initial_run], for bandit [b]. *)
Lemma visit_bandit_inv (I : nat -> list Q -> GaussianBandits -> Prop) b s :
  b < nb -> dims nb na s -> I 0 [] s ->
  (forall a R t r t',
     a < na -> dims nb na t -> I a R t ->
     effect np 1 0 b a r t t' -> I (S a) (R ++ [r]) t') ->
  exists R s',
    visit_bandit np b s = Ok (set_avg_reward (_avg_reward s' ++ [mean R]) s') /\
    dims nb na s' /\ I na R s'.
Proof.
  intros Hb Hs H0 Hstep. unfold visit_bandit.
  destruct Hs as (Hnb & Hna' & Hwf). rewrite Hna'.
  destruct (for_range_inv
              (fun j acc => dims nb na acc.2 /\ I j acc.1 acc.2)
              (visit_arm np b) na ([], s)) as ([R s'] & Hrun & Hd & HI).
  - simpl. split; [split; [|split]|]; assumption.
  - intros a [R t] Ha [Hd HI]. simpl in Hd, HI.
    pose proof Hd as (Hnbt & Hnat & Hwft).
    destruct (visit_arm_effect np b a R t Hwft) as (r & t' & Hrun & E);
      [lia | lia |].
    exists (R ++ [r], t'). split; [assumption|]. simpl. split.
    + eapply effect_dims; eassumption.
    + eapply Hstep; eauto.
  - exists R, s'. rewrite Hrun. simpl. auto.
Qed.

(** The timestep loop of [learn]. *)
Lemma main_loop_inv one_step (J : nat -> GaussianBandits -> Prop) n s :
  J 0 s ->
  (forall i t, i < Z.to_nat n -> J i t ->
     exists R t', one_step i t = Ok (R, t') /\
       J (S i) (set_avg_reward (_avg_reward t' ++ [mean R]) t')) ->
  exists s', main_loop one_step n s = Ok s' /\ J (Z.to_nat n) s'.
Proof.
  intros H0 Hstep. unfold main_loop. apply for_range_inv; [assumption|].
  intros i t Hi HJ. destruct (Hstep i t Hi HJ) as (R & t' & Hrun & HJ').
  unfold timestep. rewrite Hrun. simpl. eauto.
Qed.

End Lifting.

(** ** EpsGreedy.get_action without exploration *)

Lemma argmax_from_spec xs : forall pre best besti,
  pre !! besti = Some best ->
  (forall j x, pre !! j = Some x -> (x <= best)%Q /\ (j < besti -> (x < best)%Q)) ->
  exists q,
    (pre ++ xs) !! argmax_from best besti (length pre) xs = Some q /\
    forall j x, (pre ++ xs) !! j = Some x ->
      (x <= q)%Q /\ (j < argmax_from best besti (length pre) xs -> (x < q)%Q).
Proof.
  induction xs as [|x xs IH]; intros pre best besti Hbest Hpre; simpl.
  - rewrite app_nil_r. eauto.
  - pose proof (lookup_lt_Some _ _ _ Hbest) as Hlt.
    replace (pre ++ x :: xs) with ((pre ++ [x]) ++ xs) by (by rewrite <- app_assoc).
    replace (S (length pre)) with (length (pre ++ [x]))
      by (rewrite length_app; simpl; lia).
    destruct (Qltb best x) eqn:E.
    + apply Qltb_lt in E. apply IH.
      * by rewrite lookup_app_r, Nat.sub_diag.
      * intros j y Hy. destruct (decide (j < length pre)) as [Hj|Hj].
        -- rewrite lookup_app_l in Hy by assumption.
           destruct (Hpre j y Hy) as [Hle _]. split.
           ++ apply Qlt_le_weak. eapply Qle_lt_trans; eassumption.
           ++ intros _. eapply Qle_lt_trans; eassumption.
        -- rewrite lookup_app_r in Hy by lia.
           destruct (j - length pre) as [|k] eqn:Ek; simpl in Hy; [|discriminate].
           injection Hy as <-. split; [apply Qle_refl | lia].
    + apply Qltb_ge in E. apply IH.
      * by apply lookup_app_l_Some.
      * intros j y Hy. destruct (decide (j < length pre)) as [Hj|Hj].
        -- rewrite lookup_app_l in Hy by assumption. by apply Hpre.
        -- rewrite lookup_app_r in Hy by lia.
           destruct (j - length pre) as [|k] eqn:Ek; simpl in Hy; [|discriminate].
           injection Hy as <-. split; [assumption | lia].
Qed.

(** [np.argmax] returns the first index that holds the maximum. *)
Lemma argmax_spec row :
  0 < length row ->
  exists a q,
    argmax row = Ok a /\ row !! a = Some q /\
    forall j x, row !! j = Some x -> (x <= q)%Q /\ (j < a -> (x < q)%Q).
Proof.
  destruct row as [|x xs]; simpl; [lia|]. intros _.
  destruct (argmax_from_spec xs [x] x 0) as (q & Hq & Hall).
  - reflexivity.
  - intros [|j] y Hy; simpl in Hy; [|discriminate].
    injection Hy as <-. split; [apply Qle_refl | lia].
  - simpl in Hq, Hall. eauto.
Qed.

(** C8.  With [eps = 0] EpsGreedy.get_action never takes the random branch:
    it consumes one draw and returns [np.argmax] of the bandit's row of [Q],
    which is the first index holding the maximum; hence an arm whose estimate
    strictly exceeds every other estimate of the bandit is the one chosen. *)
Theorem eps_zero_get_action_is_first_argmax np b s row :
  NumpyOk np -> (_eps s == 0)%Q ->
  _Q s !! b = Some row -> 0 < length row ->
  exists a q,
    EpsGreedy.get_action np b s = Ok (a, tick s) /\
    argmax row = Ok a /\
    row !! a = Some q /\
    (forall j x, row !! j = Some x -> (x <= q)%Q /\ (j < a -> (x < q)%Q)) /\
    (forall a0 q0, row !! a0 = Some q0 ->
       (forall j x, j <> a0 -> row !! j = Some x -> (x < q0)%Q) -> a = a0).
Proof.
  intros Hnp Heps Hrow Hlen.
  destruct (argmax_spec row Hlen) as (a & q & Harg & Hq & Hmax).
  exists a, q. split; [|split; [assumption|split; [assumption|split; [assumption|]]]].
  - unfold EpsGreedy.get_action.
    assert (Qltb (random np (draws s)) (_eps (tick s)) = false) as ->.
    { apply Qltb_ge. simpl. rewrite Heps. apply (random_range np Hnp). }
    unfold getrow. simpl. rewrite Hrow. simpl. by rewrite Harg.
  - intros a0 q0 Hq0 Hstrict.
    destruct (decide (a = a0)) as [|Hne]; [assumption|]. exfalso.
    destruct (Hmax a0 q0 Hq0) as [Hle _].
    pose proof (Hstrict a q Hne Hq) as Hlt.
    eapply Qlt_not_le; eassumption.
Qed.

Lemma np0_ok : NumpyOk np0.
Proof.
  constructor; simpl.
  - intros _. split; [discriminate | reflexivity].
  - intros _ high H. exact H.
  - intros _ p H. exact H.
Qed.


Lemma np0_exp_defined : exp_defined np0.
Proof.
  intros v. eexists. split; [reflexivity|].
  destruct (Qle_bool 0 v) eqn:E.
  - apply Qle_bool_iff in E.
    apply Qlt_le_trans with (y := 1%Q); [reflexivity|].
    rewrite <- (Qplus_0_r 1) at 1. by apply Qplus_le_r.
  - assert (v < 0)%Q as Hv.
    { apply Qnot_le_lt. intros H. apply Qle_bool_iff in H. congruence. }
    apply Qlt_shift_div_l.
    + rewrite <- (Qplus_opp_r v). unfold Qminus. apply Qplus_lt_l.
      apply Qlt_trans with (y := 0%Q); [assumption | reflexivity].
    + rewrite Qmult_0_l. reflexivity.
Qed.

Lemma s_cold_constructed : EpsGreedy.__init__ np0 0 1 2 0 = Ok s_cold.
Proof. reflexivity. Qed.

Lemma s_warm_reached :
  (s ← UCB.__init__ np0 0 1 1; UCB.initial_run np0 s) = Ok s_warm.
Proof. vm_compute. reflexivity. Qed.

Lemma eps_zero_get_action_is_first_argmax_witness :
  exists a q,
    EpsGreedy.get_action np0 0 s_first_wins = Ok (a, tick s_first_wins) /\
    argmax [1; 2; 2]%Q = Ok a /\
    [1; 2; 2]%Q !! a = Some q /\
    (forall j x, [1; 2; 2]%Q !! j = Some x -> (x <= q)%Q /\ (j < a -> (x < q)%Q)) /\
    (forall a0 q0, [1; 2; 2]%Q !! a0 = Some q0 ->
       (forall j x, j <> a0 -> [1; 2; 2]%Q !! j = Some x -> (x < q0)%Q) -> a = a0).
Proof.
  apply (eps_zero_get_action_is_first_argmax np0 0 s_first_wins [1; 2; 2]%Q).
  - exact np0_ok.
  - reflexivity.
  - reflexivity.
  - simpl. lia.
Defined.

(** ** The incremental update computes the sample mean *)

Lemma inject_Z_succ_nonzero (c : Z) : (0 <= c)%Z -> ~ (inject_Z c + 1 == 0)%Q.
Proof. intros H H0. unfold Qeq in H0. simpl in H0. lia. Qed.

Lemma update_step_sum (q r : Q) (c : Z) :
  (0 <= c)%Z ->
  ((q + (r - q) / (inject_Z c + 1)) * inject_Z (c + 1) == q * inject_Z c + r)%Q.
Proof.
  intros H. rewrite inject_Z_plus. change (inject_Z 1) with 1%Q.
  field. by apply inject_Z_succ_nonzero.
Qed.

Lemma feed_sum b a rs : forall s q c,
  getitem (_Q s) b a = Ok q -> getitem (_counts s) b a = Ok c -> (0 <= c)%Z ->
  exists s' q',
    feed b a rs s = Ok s' /\
    getitem (_Q s') b a = Ok q' /\
    getitem (_counts s') b a = Ok (c + Z.of_nat (length rs))%Z /\
    (q' * inject_Z (c + Z.of_nat (length rs)) == q * inject_Z c + sumQ rs)%Q.
Proof.
  induction rs as [|r rs IH]; intros s q c Hq Hc Hpos.
  - exists s, q. simpl. rewrite Z.add_0_r. repeat split; try assumption.
    by rewrite Qplus_0_r.
  - apply getitem_Ok_inv in Hq as (qrow & Hqrow & Hqa).
    apply getitem_Ok_inv in Hc as (crow & Hcrow & Hca).
    unfold feed. simpl.
    rewrite (update_Q_Ok b a r s qrow q crow c Hqrow Hqa Hcrow Hca). simpl.
    set (s1 := set_Q _ _).
    rewrite (incr_counts_Ok b a s1 crow c Hcrow Hca). simpl.
    set (s2 := set_counts _ _).
    destruct (IH s2 (q + (r - q) / (inject_Z c + 1))%Q (c + 1)%Z)
      as (s' & q' & Hrun & Hq' & Hc' & Hsum).
    + simpl. by eapply getitem_insert_eq.
    + simpl. by eapply getitem_insert_eq.
    + lia.
    + exists s', q'. split; [exact Hrun|]. split; [assumption|].
      replace (c + Z.of_nat (S (length rs)))%Z
        with (c + 1 + Z.of_nat (length rs))%Z by lia.
      split; [assumption|].
      rewrite Hsum, update_step_sum by assumption. ring.
Qed.

(** C6.  From [Q[b,a] = 0] and [counts[b,a] = 0], the update
    [Q += (reward - Q) / (counts + 1)] followed by [counts += 1], applied to
    the rewards r_1 .. r_k in turn, leaves [Q[b,a]] equal to their arithmetic
    mean (and [counts[b,a]] equal to k). *)
Theorem incremental_update_is_sample_mean b a rs s :
  getitem (_Q s) b a = Ok 0%Q -> getitem (_counts s) b a = Ok 0%Z ->
  0 < length rs ->
  exists s' q,
    feed b a rs s = Ok s' /\
    getitem (_Q s') b a = Ok q /\
    (q == mean rs)%Q /\
    getitem (_counts s') b a = Ok (Z.of_nat (length rs)).
Proof.
  intros Hq Hc Hlen.
  destruct (feed_sum b a rs s 0%Q 0%Z Hq Hc) as (s' & q & Hrun & Hq' & Hc' & Hsum);
    [lia|].
  rewrite Z.add_0_l in Hc', Hsum.
  exists s', q. split; [assumption|]. split; [assumption|]. split; [|assumption].
  assert (~ (inject_Z (Z.of_nat (length rs)) == 0)%Q) as Hn.
  { intros H0. unfold Qeq in H0. simpl in H0. lia. }
  unfold mean. apply (Qmult_inj_r _ _ _ Hn). rewrite Hsum. field. exact Hn.
Qed.

Lemma incremental_update_is_sample_mean_witness :
  exists s' q,
    feed 0 1 [3; 5; 10]%Q s_cold = Ok s' /\
    getitem (_Q s') 0 1 = Ok q /\
    (q == mean [3; 5; 10]%Q)%Q /\
    getitem (_counts s') 0 1 = Ok (Z.of_nat (length [3; 5; 10]%Q)).
Proof.
  apply (incremental_update_is_sample_mean 0 1 [3; 5; 10]%Q s_cold).
  - reflexivity.
  - reflexivity.
  - simpl. lia.
Defined.

(** ** Construction *)

Lemma shaped_normal_matrix np k nb na : shaped nb na (normal_matrix np k nb na).
Proof.
  unfold normal_matrix, shaped, range. rewrite length_map, length_seq.
  split; [reflexivity|]. apply List.Forall_forall. intros row Hrow.
  apply in_map_iff in Hrow as (b & <- & _). by rewrite length_map, length_seq.
Qed.

Lemma init_fresh np k (nb na : nat) :
  exists s, __init__ np k (Z.of_nat nb) (Z.of_nat na) = Ok s /\ fresh nb na s /\
            _eps s = 0%Q /\ _temp s = 0%Q.
Proof.
  unfold __init__.
  replace ((Z.of_nat nb <? 0) || (Z.of_nat na <? 0))%Z with false
    by (symmetry; apply orb_false_intro; apply Z.ltb_ge; lia).
  rewrite !Nat2Z.id. eexists. split; [reflexivity|].
  split; [|split; reflexivity].
  constructor; try reflexivity.
  split; [reflexivity|]. split; [reflexivity|]. simpl.
  split; [apply shaped_normal_matrix|]. split; apply shaped_replicate.
Qed.

Lemma init_negative np k bandits arms :
  (bandits < 0 \/ arms < 0)%Z -> __init__ np k bandits arms = Raise ValueError.
Proof.
  intros H. unfold __init__.
  replace ((bandits <? 0) || (arms <? 0))%Z with true; [reflexivity|].
  symmetry. apply orb_true_iff. rewrite !Z.ltb_lt. exact H.
Qed.

Lemma eps_init_fresh np k (nb na : nat) eps :
  exists s, EpsGreedy.__init__ np k (Z.of_nat nb) (Z.of_nat na) eps = Ok s /\
            fresh nb na s /\ _eps s = eps.
Proof.
  destruct (init_fresh np k nb na) as (s & Hs & Hf & _).
  unfold EpsGreedy.__init__. rewrite Hs. simpl.
  eexists. split; [reflexivity|]. split; [|reflexivity].
  destruct Hf. by constructor.
Qed.

Lemma softmax_init_fresh np k (nb na : nat) temp :
  exists s, SoftmaxActionSelection.__init__ np k (Z.of_nat nb) (Z.of_nat na) temp = Ok s /\
            fresh nb na s /\ _temp s = temp.
Proof.
  destruct (init_fresh np k nb na) as (s & Hs & Hf & _).
  unfold SoftmaxActionSelection.__init__. rewrite Hs. simpl.
  eexists. split; [reflexivity|]. split; [|reflexivity].
  destruct Hf. by constructor.
Qed.

Lemma ucb_init_fresh np k (nb na : nat) :
  exists s, UCB.__init__ np k (Z.of_nat nb) (Z.of_nat na) = Ok s /\ fresh nb na s.
Proof.
  destruct (init_fresh np k nb na) as (s & Hs & Hf & _).
  unfold UCB.__init__. rewrite Hs. simpl.
  eexists. split; [reflexivity|].
  destruct Hf as [(Hnb & Hna & Hr & Hq & Hc) HQ HC ? ? ? ? ?].
  constructor; simpl; try assumption.
  - split; [assumption|]. split; [assumption|].
    split; [assumption|]. split; [assumption|].
    simpl. rewrite Hnb, Hna. apply shaped_replicate.
  - by rewrite Hnb, Hna.
Qed.

Lemma main_loop_nonpositive one_step (m : nat) s :
  main_loop one_step (- Z.of_nat m) s = Ok s.
Proof.
  unfold main_loop. replace (Z.to_nat (- Z.of_nat m)) with 0 by lia. reflexivity.
Qed.

Lemma learn_warm_nonpositive np get_action (m : nat) s :
  learn_warm np get_action (- Z.of_nat m) s = initial_run np s.
Proof.
  unfold learn_warm. destruct (initial_run np s) as [s1|e]; simpl; [|reflexivity].
  apply main_loop_nonpositive.
Qed.

(** C9, as the code has it.  No configuration is validated.  Construction
    raises only when [bandits] or [arms] is negative, which numpy refuses as
    an array dimension; zero bandits or arms and every [eps] and [temp],
    non-positive ones included, are accepted.  [learn] with a non-positive
    [n_timesteps] returns normally: EpsGreedy leaves the policy unchanged,
    UCB and SoftmaxActionSelection run [initial_run] and nothing more. *)
Theorem configuration_is_not_validated np k :
  (forall (nb na : nat) (x : Q),
     (exists s, EpsGreedy.__init__ np k (Z.of_nat nb) (Z.of_nat na) x = Ok s /\
                _nbandits s = nb /\ _narms s = na /\ _eps s = x) /\
     (exists s, UCB.__init__ np k (Z.of_nat nb) (Z.of_nat na) = Ok s /\
                _nbandits s = nb /\ _narms s = na) /\
     (exists s, SoftmaxActionSelection.__init__ np k (Z.of_nat nb) (Z.of_nat na) x = Ok s /\
                _nbandits s = nb /\ _narms s = na /\ _temp s = x)) /\
  (forall (p : positive) (z : Z) (x : Q),
     EpsGreedy.__init__ np k (Z.neg p) z x = Raise ValueError /\
     EpsGreedy.__init__ np k z (Z.neg p) x = Raise ValueError /\
     UCB.__init__ np k (Z.neg p) z = Raise ValueError /\
     UCB.__init__ np k z (Z.neg p) = Raise ValueError /\
     SoftmaxActionSelection.__init__ np k (Z.neg p) z x = Raise ValueError /\
     SoftmaxActionSelection.__init__ np k z (Z.neg p) x = Raise ValueError) /\
  (forall (m : nat) (s : GaussianBandits),
     EpsGreedy.learn np (- Z.of_nat m) s = Ok s /\
     UCB.learn np (- Z.of_nat m) s = UCB.initial_run np s /\
     SoftmaxActionSelection.learn np (- Z.of_nat m) s =
       SoftmaxActionSelection.initial_run np s).
Proof.
  split; [|split].
  - intros nb na x. split; [|split].
    + destruct (eps_init_fresh np k nb na x) as (s & Hs & [(? & ? & _)] & ?). eauto.
    + destruct (ucb_init_fresh np k nb na) as (s & Hs & [(? & ? & _)]). eauto.
    + destruct (softmax_init_fresh np k nb na x) as (s & Hs & [(? & ? & _)] & ?). eauto.
  - intros p z x.
    unfold EpsGreedy.__init__, UCB.__init__, SoftmaxActionSelection.__init__.
    rewrite (init_negative np k (Z.neg p) z) by (left; lia).
    rewrite (init_negative np k z (Z.neg p)) by (right; lia).
    repeat split; reflexivity.
  - intros m s. split; [|split].
    + apply main_loop_nonpositive.
    + apply learn_warm_nonpositive.
    + apply learn_warm_nonpositive.
Qed.

(** C9 as stated fails: with zero bandits, zero arms, a negative temperature
    and a negative number of timesteps nothing is refused. *)
Lemma nonpositive_configuration_accepted :
  exists s s',
    SoftmaxActionSelection.__init__ np0 0 0 0 (-1) = Ok s /\
    SoftmaxActionSelection.learn np0 (-3) s = Ok s'.
Proof. eexists _, _. split; reflexivity. Qed.

(** ** The initial run *)

Lemma getitem_insert {A} (m : list (list A)) b a row x y b' a' :
  m !! b = Some row -> row !! a = Some x ->
  getitem (<[b := <[a := y]> row]> m) b' a' =
    if decide (b' = b /\ a' = a) then Ok y else getitem m b' a'.
Proof.
  intros Hb Ha.
  pose proof (lookup_lt_Some _ _ _ Hb) as Hbl.
  pose proof (lookup_lt_Some _ _ _ Ha) as Hal.
  destruct (decide (b' = b /\ a' = a)) as [[-> ->]|Hne].
  - by eapply getitem_insert_eq.
  - unfold getitem, getrow, getidx.
    destruct (decide (b' = b)) as [->|Hb'].
    + rewrite list_lookup_insert_eq by assumption. simpl. rewrite Hb. simpl.
      rewrite list_lookup_insert_ne; [reflexivity|]. intros ->. by apply Hne.
    + by rewrite list_lookup_insert_ne.
Qed.

Lemma row_major_inj na b a b' a' :
  a < na -> a' < na -> b * na + a = b' * na + a' -> b = b' /\ a = a'.
Proof.
  intros Ha Ha' H.
  destruct (lt_eq_lt_dec b b') as [[Hlt| ->]|Hlt]; [exfalso | lia | exfalso].
  - replace b' with (b + S (b' - S b)) in H by lia.
    rewrite Nat.mul_add_distr_r in H. simpl in H. lia.
  - replace b with (b' + S (b - S b')) in H by lia.
    rewrite Nat.mul_add_distr_r in H. simpl in H. lia.
Qed.

Lemma shaped_constant {A} nb na (m : list (list A)) x :
  shaped nb na m ->
  (forall b a, b < nb -> a < na -> getitem m b a = Ok x) ->
  m = replicate nb (replicate na x).
Proof.
  intros [Hlen Hrows] Hall. apply list_eq. intros b.
  destruct (decide (b < nb)) as [Hb|Hb].
  - rewrite lookup_replicate_2 by assumption.
    destruct (lookup_lt_is_Some_2 m b) as [row Hrow]; [lia|].
    rewrite Hrow. f_equal.
    pose proof (Forall_lookup_1 _ _ _ _ Hrows Hrow) as Hl. simpl in Hl.
    apply list_eq. intros a.
    destruct (decide (a < na)) as [Ha|Ha].
    + rewrite lookup_replicate_2 by assumption.
      specialize (Hall b a Hb Ha). apply getitem_Ok_inv in Hall as (row' & Hrow' & Hx).
      congruence.
    + rewrite (lookup_ge_None_2 row) by lia.
      symmetry. apply lookup_replicate_None. lia.
  - rewrite (lookup_ge_None_2 m) by lia.
    symmetry. apply lookup_replicate_None. lia.
Qed.

Section InitialRun.

Variable np : Numpy.
Variables nb na : nat.

(** The bandit loop of [initial_run]. *)
Lemma initial_run_inv (K : nat -> GaussianBandits -> Prop) s :
  dims nb na s -> K 0 s ->
  (forall b t, b < nb -> dims nb na t -> K b t ->
     exists t', visit_bandit np b t = Ok t' /\ dims nb na t' /\ K (S b) t') ->
  exists s', initial_run np s = Ok s' /\ dims nb na s' /\ K nb s'.
Proof.
  intros Hs H0 Hstep. unfold initial_run.
  pose proof Hs as (Hnb & _). rewrite Hnb.
  apply (for_range_inv (fun j t => dims nb na t /\ K j t)); [by split|].
  intros b t Hb [Hd HK]. apply Hstep; assumption.
Qed.

(** An invariant indexed by the number of cells visited so far, in
    row-major order, and indifferent to [avg_reward]. *)
Lemma initial_run_cells_inv (P : nat -> GaussianBandits -> Prop) s :
  dims nb na s -> P 0 s ->
  (forall b a t r t',
     b < nb -> a < na -> dims nb na t -> P (b * na + a) t ->
     effect np 1 0 b a r t t' -> P (S (b * na + a)) t') ->
  (forall v x t, P v t -> P v (set_avg_reward x t)) ->
  exists s', initial_run np s = Ok s' /\ dims nb na s' /\ P (nb * na) s'.
Proof.
  intros Hs H0 Hstep Havg.
  apply (initial_run_inv (fun j t => P (j * na) t)); [assumption | assumption |].
  intros b t Hb Hd HP.
  destruct (visit_bandit_inv np nb na (fun a _ u => P (b * na + a) u) b t)
    as (R & t' & Hrun & Hd' & HP'); try assumption.
  - by rewrite Nat.add_0_r.
  - intros a R u r u' Ha Hu HPu E.
    replace (b * na + S a) with (S (b * na + a)) by lia. eapply Hstep; eauto.
  - eexists. split; [exact Hrun|]. split; [exact Hd'|].
    apply Havg. by replace (S b * na) with (b * na + na) by lia.
Qed.

(** From a fresh state, the cells visited so far hold count 1, the others 0. *)
Lemma initial_run_counts s :
  fresh nb na s ->
  exists s', initial_run np s = Ok s' /\ dims nb na s' /\
    _counts s' = replicate nb (replicate na 1%Z) /\
    length (_regrets s') = 1 + nb * na.
Proof.
  intros Hf.
  destruct (initial_run_cells_inv
    (fun v t =>
       (forall b a, b < nb -> a < na ->
          getitem (_counts t) b a =
            Ok (if decide (b * na + a < v) then 1%Z else 0%Z)) /\
       length (_regrets t) = 1 + v) s) as (s' & Hrun & Hd & Hcells & Hlen).
  - apply (fr_dims _ _ _ Hf).
  - split.
    + intros b a Hb Ha. rewrite (fr_counts _ _ _ Hf).
      rewrite decide_False by lia.
      apply getitem_Ok with (row := replicate na 0%Z); by apply lookup_replicate_2.
    + by rewrite (fr_regrets _ _ _ Hf).
  - intros b a t r t' Hb Ha Hd [Hcells Hlen] E. split.
    + intros b' a' Hb' Ha'.
      destruct (eff_counts _ _ _ _ _ _ _ _ E) as (crow & c & Hcrow & Hc & ->).
      rewrite (getitem_insert _ _ _ _ _ _ _ _ Hcrow Hc).
      pose proof (Hcells b a Hb Ha) as Hold.
      rewrite decide_False in Hold by lia.
      rewrite (getitem_Ok _ _ _ _ _ Hcrow Hc) in Hold. injection Hold as ->.
      destruct (decide (b' = b /\ a' = a)) as [[-> ->]|Hne].
      * by rewrite decide_True by lia.
      * rewrite (Hcells b' a' Hb' Ha').
        assert (b' * na + a' <> b * na + a).
        { intros Heq. apply Hne. by apply (row_major_inj na). }
        destruct (decide (b' * na + a' < b * na + a)).
        -- by rewrite decide_True by lia.
        -- by rewrite decide_False by lia.
    + destruct (eff_regret _ _ _ _ _ _ _ _ E) as (gap & _ & _ & ->).
      rewrite length_app. simpl. lia.
  - intros v x t H. exact H.
  - exists s'. split; [assumption|]. split; [assumption|]. split; [|assumption].
    destruct Hd as (Hnb & Hna & _ & _ & Hc). rewrite Hnb, Hna in Hc.
    apply shaped_constant; [assumption|].
    intros b a Hb Ha. rewrite (Hcells b a Hb Ha).
    rewrite decide_True; [reflexivity|].
    apply Nat.lt_le_trans with (b * na + na); [lia|].
    replace (b * na + na) with (S b * na) by lia.
    apply Nat.mul_le_mono_r. lia.
Qed.

End InitialRun.

(** ** UCB(bandits=1, arms=3), learn(0) *)

Lemma ucb_learn_0_counts np k (nb na : nat) :
  exists s s',
    UCB.__init__ np k (Z.of_nat nb) (Z.of_nat na) = Ok s /\
    UCB.learn np 0 s = Ok s' /\
    _counts s' = replicate nb (replicate na 1%Z) /\
    length (_regrets s') = 1 + nb * na.
Proof.
  destruct (ucb_init_fresh np k nb na) as (s & Hs & Hf).
  destruct (initial_run_counts np nb na s Hf) as (s' & Hrun & _ & Hc & Hl).
  exists s, s'. split; [exact Hs|]. split; [|by split].
  unfold UCB.learn. change 0%Z with (- Z.of_nat 0)%Z.
  by rewrite learn_warm_nonpositive.
Qed.

(** C3, as the code has it.  After [UCB(bandits=1, arms=3)] and [learn(0)]
    the counts are [[1, 1, 1]] and the regret sequence has four entries: the
    [0.0] it is created with and one for each of the three initial visits. *)
Theorem ucb_1_3_learn_0 np k :
  exists s s',
    UCB.__init__ np k 1 3 = Ok s /\ UCB.learn np 0 s = Ok s' /\
    _counts s' = [[1; 1; 1]]%Z /\ length (_regrets s') = 4.
Proof. exact (ucb_learn_0_counts np k 1 3). Qed.

(** C3 as stated fails: the regret sequence does not have three entries. *)
Lemma ucb_1_3_learn_0_regrets_not_3 :
  exists s s',
    UCB.__init__ np0 0 1 3 = Ok s /\ UCB.learn np0 0 s = Ok s' /\
    _counts s' = [[1; 1; 1]]%Z /\ length (_regrets s') <> 3.
Proof.
  destruct (ucb_learn_0_counts np0 0 1 3) as (s & s' & Hs & Hrun & Hc & Hl).
  exists s, s'. split; [exact Hs|]. split; [exact Hrun|]. split; [exact Hc|].
  rewrite Hl. discriminate.
Qed.

(** ** Invariants of a single state *)

Section Stable.

Variable np : Numpy.
Variables nb na : nat.
Variable P : GaussianBandits -> Prop.

Hypothesis P_same : forall s s', same_tables s s' -> P s -> P s'.
Hypothesis P_effect : forall pre post b a r s s',
  effect np pre post b a r s s' -> P s -> P s'.
Hypothesis P_avg : forall v s, P s -> P (set_avg_reward v s).





End Stable.

(** ** The regret sequence *)






(** ** The visits recorded per bandit *)

Lemma sumZ_insert (row : list Z) a c x :
  row !! a = Some c -> sumZ (<[a := x]> row) = (sumZ row - c + x)%Z.
Proof.
  revert a. induction row as [|y row IH]; intros [|a] H; simpl in *; try discriminate.
  - injection H as ->. lia.
  - rewrite (IH a H). lia.
Qed.

Lemma sumZ_replicate n (x : Z) : sumZ (replicate n x) = (Z.of_nat n * x)%Z.
Proof. induction n as [|n IH]; simpl; [reflexivity|]. rewrite IH. lia. Qed.

Lemma row_sum_same s s' b : same_tables s s' -> row_sum s' b = row_sum s b.
Proof. intros H. unfold row_sum. by rewrite (st_counts _ _ H). Qed.

Lemma row_sum_effect np pre post b a r s s' b' :
  effect np pre post b a r s s' ->
  row_sum s' b' = (row_sum s b' + if decide (b' = b) then (pre + post)%Z else 0%Z)%Z.
Proof.
  intros E. destruct (eff_counts _ _ _ _ _ _ _ _ E) as (crow & c & Hcrow & Hc & Hc').
  unfold row_sum. rewrite Hc'.
  destruct (decide (b' = b)) as [->|Hne].
  - rewrite list_lookup_insert_eq by (by eapply lookup_lt_Some).
    rewrite Hcrow, (sumZ_insert _ _ _ _ Hc). lia.
  - rewrite list_lookup_insert_ne by congruence. lia.
Qed.

Lemma row_sums_Forall nb na s (v : Z) :
  dims nb na s -> (forall b, b < nb -> row_sum s b = v) ->
  length (_counts s) = nb /\ Forall (fun row => sumZ row = v) (_counts s).
Proof.
  intros (Hnb & _ & _ & _ & Hlen & _) H. rewrite Hnb in Hlen.
  split; [assumption|].
  apply Forall_lookup_2. intros b row Hrow.
  pose proof (lookup_lt_Some _ _ _ Hrow) as Hb. rewrite Hlen in Hb.
  specialize (H b Hb). unfold row_sum in H. by rewrite Hrow in H.
Qed.

Section Visits.

Variable np : Numpy.
Variables nb na : nat.

(** One timestep of EpsGreedy records one visit for every bandit. *)
Lemma eps_one_step_visits i s :
  NumpyOk np -> 0 < na -> dims nb na s ->
  exists R s',
    EpsGreedy.one_step np i s = Ok (R, s') /\ dims nb na s' /\
    forall b, b < nb -> row_sum s' b = (row_sum s b + 1)%Z.
Proof.
  intros Hnp Hna Hd.
  destruct (eps_one_step_inv np nb na
    (fun j _ t => forall b, row_sum t b =
       (row_sum s b + if decide (b < j)%nat then 1 else 0)%Z) i s Hnp Hna Hd)
    as (R & s' & Hrun & Hd' & HI).
  - intros b. rewrite decide_False by lia. lia.
  - intros b R t a t1 r t' Hb _ HI _ _ Hsame E b'.
    rewrite (row_sum_effect _ _ _ _ _ _ _ _ b' E), (row_sum_same _ _ _ Hsame), HI.
    repeat case_decide; lia.
  - exists R, s'. split; [assumption|]. split; [assumption|].
    intros b Hb. rewrite HI. by rewrite decide_True.
Qed.

Lemma eps_learn_visits (n : nat) s :
  NumpyOk np -> 0 < na -> dims nb na s ->
  exists s',
    EpsGreedy.learn np (Z.of_nat n) s = Ok s' /\ dims nb na s' /\
    forall b, b < nb -> row_sum s' b = (row_sum s b + Z.of_nat n)%Z.
Proof.
  intros Hnp Hna Hd. unfold EpsGreedy.learn.
  destruct (main_loop_inv (EpsGreedy.one_step np)
    (fun i t => dims nb na t /\
       forall b, b < nb -> row_sum t b = (row_sum s b + Z.of_nat i)%Z)
    (Z.of_nat n) s) as (s' & Hrun & Hd' & HJ).
  - split; [assumption|]. intros b _. simpl. lia.
  - intros i t _ [Hdt HJ].
    destruct (eps_one_step_visits i t Hnp Hna Hdt) as (R & t' & Hstep & Hdt' & Hv).
    exists R, t'. split; [assumption|]. split; [assumption|].
    intros b Hb. change (row_sum (set_avg_reward _ t') b) with (row_sum t' b).
    rewrite (Hv b Hb), (HJ b Hb). lia.
  - rewrite Nat2Z.id in HJ. eauto.
Qed.

(** One counted timestep records two visits for every bandit. *)
Lemma one_step_counted_visits get_action i s :
  chooses get_action -> 0 < na -> dims nb na s ->
  exists R s',
    one_step_counted np get_action i s = Ok (R, s') /\ dims nb na s' /\
    forall b, b < nb -> row_sum s' b = (row_sum s b + 2)%Z.
Proof.
  intros Hch Hna Hd.
  destruct (one_step_counted_inv np nb na get_action
    (fun j _ t => forall b, row_sum t b =
       (row_sum s b + if decide (b < j)%nat then 2 else 0)%Z) i s Hch Hna Hd)
    as (R & s' & Hrun & Hd' & HI).
  - intros b. rewrite decide_False by lia. lia.
  - intros b R t a t1 r t' Hb _ HI _ _ Hsame E b'.
    rewrite (row_sum_effect _ _ _ _ _ _ _ _ b' E), (row_sum_same _ _ _ Hsame), HI.
    repeat case_decide; lia.
  - exists R, s'. split; [assumption|]. split; [assumption|].
    intros b Hb. rewrite HI. by rewrite decide_True.
Qed.

Lemma learn_warm_visits get_action (n : nat) s :
  chooses get_action -> 0 < na -> fresh nb na s ->
  exists s',
    learn_warm np get_action (Z.of_nat n) s = Ok s' /\ dims nb na s' /\
    forall b, b < nb -> row_sum s' b = (Z.of_nat na + 2 * Z.of_nat n)%Z.
Proof.
  intros Hch Hna Hf. unfold learn_warm.
  destruct (initial_run_counts np nb na s Hf) as (s1 & -> & Hd1 & Hc1 & _). simpl.
  destruct (main_loop_inv (one_step_counted np get_action)
    (fun i t => dims nb na t /\
       forall b, b < nb -> row_sum t b = (Z.of_nat na + 2 * Z.of_nat i)%Z)
    (Z.of_nat n) s1) as (s' & Hrun & Hd' & HJ).
  - split; [assumption|]. intros b Hb. unfold row_sum. rewrite Hc1.
    rewrite lookup_replicate_2 by assumption. rewrite sumZ_replicate. lia.
  - intros i t _ [Hdt HJ].
    destruct (one_step_counted_visits get_action i t Hch Hna Hdt)
      as (R & t' & Hstep & Hdt' & Hv).
    exists R, t'. split; [assumption|]. split; [assumption|].
    intros b Hb. change (row_sum (set_avg_reward _ t') b) with (row_sum t' b).
    rewrite (Hv b Hb), (HJ b Hb). lia.
  - rewrite Nat2Z.id in HJ. eauto.
Qed.

End Visits.

(** C1, as the code has it.  After [learn(n)] on a newly constructed policy
    the counts of every bandit sum, across its arms, to [n] for EpsGreedy but
    to [num_arms + 2 * n] for UCB and SoftmaxActionSelection, whose main loop
    increments the counter twice per decision.  The run of
    SoftmaxActionSelection returns when its temperature is not 0 and [np.exp]
    does not overflow. *)
Theorem counts_sum_after_learn np k (nb na n : nat) x temp :
  NumpyOk np -> 0 < na ->
  (exists s s',
     EpsGreedy.__init__ np k (Z.of_nat nb) (Z.of_nat na) x = Ok s /\
     EpsGreedy.learn np (Z.of_nat n) s = Ok s' /\
     length (_counts s') = nb /\
     Forall (fun row => sumZ row = Z.of_nat n) (_counts s')) /\
  (exists s s',
     UCB.__init__ np k (Z.of_nat nb) (Z.of_nat na) = Ok s /\
     UCB.learn np (Z.of_nat n) s = Ok s' /\
     length (_counts s') = nb /\
     Forall (fun row => sumZ row = (Z.of_nat na + 2 * Z.of_nat n)%Z) (_counts s')) /\
  (exp_defined np -> ~ (temp == 0)%Q ->
   exists s s',
     SoftmaxActionSelection.__init__ np k (Z.of_nat nb) (Z.of_nat na) temp = Ok s /\
     SoftmaxActionSelection.learn np (Z.of_nat n) s = Ok s' /\
     length (_counts s') = nb /\
     Forall (fun row => sumZ row = (Z.of_nat na + 2 * Z.of_nat n)%Z) (_counts s')).
Proof.
  intros Hnp Hna. split; [|split].
  - destruct (eps_init_fresh np k nb na x) as (s & Hs & Hf & _).
    destruct (eps_learn_visits np nb na n s Hnp Hna (fr_dims _ _ _ Hf))
      as (s' & Hrun & Hd & Hv).
    exists s, s'. split; [assumption|]. split; [assumption|].
    apply (row_sums_Forall nb na); [assumption|].
    intros b Hb. rewrite (Hv b Hb). unfold row_sum.
    rewrite (fr_counts _ _ _ Hf), lookup_replicate_2 by assumption.
    rewrite sumZ_replicate. lia.
  - destruct (ucb_init_fresh np k nb na) as (s & Hs & Hf).
    destruct (learn_warm_visits np nb na (UCB.get_action np) n s
                (chooses_ucb np) Hna Hf) as (s' & Hrun & Hd & Hv).
    exists s, s'. split; [assumption|]. split; [assumption|].
    by apply (row_sums_Forall nb na).
  - intros Hexp Ht.
    destruct (softmax_init_fresh np k nb na temp) as (s & Hs & Hf & Htemp).
    destruct (learn_warm_visits np nb na
                (at_temperature temp (fun _ => SoftmaxActionSelection.get_action np))
                n s (chooses_softmax np temp Hnp Hexp Ht) Hna Hf)
      as (s' & Hrun & Hd & Hv).
    rewrite softmax_learn_at_temperature in Hrun by (by rewrite Htemp).
    exists s, s'. split; [assumption|]. split; [assumption|].
    by apply (row_sums_Forall nb na).
Qed.

Lemma counts_sum_after_learn_witness :
  (exists s s',
     EpsGreedy.__init__ np0 0 (Z.of_nat 1) (Z.of_nat 1) 0 = Ok s /\
     EpsGreedy.learn np0 (Z.of_nat 1) s = Ok s' /\
     length (_counts s') = 1 /\
     Forall (fun row => sumZ row = Z.of_nat 1) (_counts s')) /\
  (exists s s',
     UCB.__init__ np0 0 (Z.of_nat 1) (Z.of_nat 1) = Ok s /\
     UCB.learn np0 (Z.of_nat 1) s = Ok s' /\
     length (_counts s') = 1 /\
     Forall (fun row => sumZ row = (Z.of_nat 1 + 2 * Z.of_nat 1)%Z) (_counts s')) /\
  (exists s s',
     SoftmaxActionSelection.__init__ np0 0 (Z.of_nat 1) (Z.of_nat 1) (1 # 100) = Ok s /\
     SoftmaxActionSelection.learn np0 (Z.of_nat 1) s = Ok s' /\
     length (_counts s') = 1 /\
     Forall (fun row => sumZ row = (Z.of_nat 1 + 2 * Z.of_nat 1)%Z) (_counts s')).
Proof.
  destruct (counts_sum_after_learn np0 0 1 1 1 0 (1 # 100))
    as (HE & HU & HS); [exact np0_ok | lia |].
  split; [exact HE|]. split; [exact HU|].
  apply HS; [exact np0_exp_defined | discriminate].
Defined.

(** ** One decision of the main loop of UCB and SoftmaxActionSelection *)






(** ** The estimates after the initial run *)

Lemma half_of_first_reward (r : Q) :
  (0 + (r - 0) / (inject_Z (0 + 1) + 1) == r / 2)%Q.
Proof. change (inject_Z (0 + 1) + 1)%Q with 2%Q. field. Qed.

Lemma initial_run_estimates np nb na s :
  fresh nb na s ->
  exists s', initial_run np s = Ok s' /\
    length (sampled s') = nb * na /\
    forall b a, b < nb -> a < na ->
      exists r q,
        sampled s' !! (b * na + a) = Some (b, a, r) /\
        getitem (_Q s') b a = Ok q /\ (q == r / 2)%Q.
Proof.
  intros Hf.
  destruct (initial_run_cells_inv np nb na
    (fun v t =>
       length (sampled t) = v /\
       (forall b a, b < nb -> a < na -> b * na + a < v ->
          exists r, sampled t !! (b * na + a) = Some (b, a, r) /\
            getitem (_Q t) b a = Ok (0 + (r - 0) / (inject_Z (0 + 1) + 1))%Q) /\
       (forall b a, b < nb -> a < na -> ~ b * na + a < v ->
          getitem (_Q t) b a = Ok 0%Q /\ getitem (_counts t) b a = Ok 0%Z)) s)
    as (s' & Hrun & Hd & Hlen & Hvis & _).
  - apply (fr_dims _ _ _ Hf).
  - split; [by rewrite (fr_sampled _ _ _ Hf)|]. split; [intros; lia|].
    intros b a Hb Ha _. rewrite (fr_Q _ _ _ Hf), (fr_counts _ _ _ Hf). split.
    + apply getitem_Ok with (row := replicate na 0%Q); by apply lookup_replicate_2.
    + apply getitem_Ok with (row := replicate na 0%Z); by apply lookup_replicate_2.
  - intros b a t r t' Hb Ha Hd (Hlen & Hvis & Hnot) E.
    destruct (eff_counts _ _ _ _ _ _ _ _ E) as (crow & c & Hcrow & Hc & Hc').
    destruct (eff_Q _ _ _ _ _ _ _ _ E) as (qrow & q & c0 & Hqrow & Hq & Hc0 & Hq').
    destruct (Hnot b a Hb Ha) as [Hq0 Hc00]; [lia|].
    rewrite (getitem_Ok _ _ _ _ _ Hqrow Hq) in Hq0. injection Hq0 as ->.
    rewrite Hc00 in Hc0. injection Hc0 as <-.
    rewrite (getitem_Ok _ _ _ _ _ Hcrow Hc) in Hc00. injection Hc00 as ->.
    rewrite (eff_sampled _ _ _ _ _ _ _ _ E).
    split; [rewrite length_app; simpl; lia|]. split.
    + intros b' a' Hb' Ha' Hlt. rewrite Hq', (getitem_insert _ _ _ _ _ _ _ _ Hqrow Hq).
      destruct (decide (b' = b /\ a' = a)) as [[-> ->]|Hne].
      * exists r. split; [|reflexivity].
        rewrite <- Hlen. apply list_lookup_middle. reflexivity.
      * assert (b' * na + a' <> b * na + a).
        { intros Heq. apply Hne. by apply (row_major_inj na). }
        destruct (Hvis b' a' Hb' Ha') as (r' & Hr' & Hq''); [lia|].
        exists r'. split; [|assumption]. by apply lookup_app_l_Some.
    + intros b' a' Hb' Ha' Hge.
      rewrite Hq', Hc', (getitem_insert _ _ _ _ _ _ _ _ Hqrow Hq),
        (getitem_insert _ _ _ _ _ _ _ _ Hcrow Hc).
      rewrite !decide_False by (intros [-> ->]; lia).
      apply Hnot; [assumption | assumption | lia].
  - intros v x t H. exact H.
  - exists s'. split; [assumption|]. split; [assumption|].
    intros b a Hb Ha. destruct (Hvis b a Hb Ha) as (r & Hr & Hq).
    + apply Nat.lt_le_trans with (b * na + na); [lia|].
      replace (b * na + na) with (S b * na) by lia.
      apply Nat.mul_le_mono_r. lia.
    + exists r. eexists. split; [exact Hr|]. split; [exact Hq|].
      apply half_of_first_reward.
Qed.

(** C10.  Right after [initial_run] on a newly constructed UCB or
    SoftmaxActionSelection policy, exactly one reward has been sampled for
    every bandit [b] and arm [a], and [Q[b,a]] is half of it: the counter is
    incremented before the value update, which therefore divides by 2. *)
Theorem initial_run_halves_first_reward np k (nb na : nat) x :
  (exists s s',
     UCB.__init__ np k (Z.of_nat nb) (Z.of_nat na) = Ok s /\
     UCB.initial_run np s = Ok s' /\
     length (sampled s') = nb * na /\
     forall b a, b < nb -> a < na ->
       exists r q,
         sampled s' !! (b * na + a) = Some (b, a, r) /\
         getitem (_Q s') b a = Ok q /\ (q == r / 2)%Q) /\
  (exists s s',
     SoftmaxActionSelection.__init__ np k (Z.of_nat nb) (Z.of_nat na) x = Ok s /\
     SoftmaxActionSelection.initial_run np s = Ok s' /\
     length (sampled s') = nb * na /\
     forall b a, b < nb -> a < na ->
       exists r q,
         sampled s' !! (b * na + a) = Some (b, a, r) /\
         getitem (_Q s') b a = Ok q /\ (q == r / 2)%Q).
Proof.
  split.
  - destruct (ucb_init_fresh np k nb na) as (s & Hs & Hf).
    destruct (initial_run_estimates np nb na s Hf) as (s' & Hrun & H).
    by exists s, s'.
  - destruct (softmax_init_fresh np k nb na x) as (s & Hs & Hf & _).
    destruct (initial_run_estimates np nb na s Hf) as (s' & Hrun & H).
    by exists s, s'.
Qed.

Lemma initial_run_halves_first_reward_witness :
  exists s s' r q,
    UCB.__init__ np0 0 (Z.of_nat 2) (Z.of_nat 3) = Ok s /\
    UCB.initial_run np0 s = Ok s' /\
    sampled s' !! (1 * 3 + 2) = Some (1, 2, r) /\
    getitem (_Q s') 1 2 = Ok q /\ (q == r / 2)%Q.
Proof.
  destruct (initial_run_halves_first_reward np0 0 2 3 0)
    as [(s & s' & Hs & Hrun & _ & H) _].
  destruct (H 1 2) as (r & q & Hr & Hq & Hhalf); [lia | lia |].
  by exists s, s', r, q.
Defined.

(** ** The reward trajectory *)

Section Trajectory.

Variable np : Numpy.
Variables nb na : nat.






End Trajectory.




(** ** The arguments of UCB.get_action *)

Section UcbCalls.

Variable np : Numpy.
Variables nb na : nat.

Lemma initial_run_no_call s :
  fresh nb na s ->
  exists s', initial_run np s = Ok s' /\ dims nb na s' /\
    counts_positive (_counts s') /\ ucb_calls s' = [].
Proof.
  intros Hf.
  destruct (initial_run_counts np nb na s Hf) as (s' & Hrun & Hd & Hc & _).
  destruct (initial_run_cells_inv np nb na (fun _ t => ucb_calls t = []) s)
    as (s'' & Hrun' & _ & Hcalls).
  - apply (fr_dims _ _ _ Hf).
  - apply (fr_ucb_calls _ _ _ Hf).
  - intros b a t r t' _ _ _ Ht E. by rewrite (eff_ucb_calls _ _ _ _ _ _ _ _ E).
  - intros v x t H. exact H.
  - rewrite Hrun in Hrun'. injection Hrun' as <-.
    exists s'. split; [assumption|]. split; [assumption|]. split; [|assumption].
    rewrite Hc. unfold counts_positive.
    apply Forall_replicate, Forall_replicate. lia.
Qed.

(** One timestep [i] of UCB evaluates [get_action] once per bandit, with
    [t = i] and counts that are all at least 1. *)
Lemma ucb_one_step_calls i t :
  0 < na -> dims nb na t -> counts_positive (_counts t) ->
  exists R t' calls,
    UCB.one_step np i t = Ok (R, t') /\ dims nb na t' /\
    counts_positive (_counts t') /\
    ucb_calls t' = ucb_calls t ++ calls /\
    map fst calls = replicate nb i /\
    Forall (call_counts_ok na) calls.
Proof.
  intros Hna Hd Hpos. unfold UCB.one_step.
  destruct (one_step_counted_inv np nb na (UCB.get_action np)
    (fun j _ u => counts_positive (_counts u) /\ exists calls,
       ucb_calls u = ucb_calls t ++ calls /\
       map fst calls = replicate j i /\
       Forall (call_counts_ok na) calls) i t (chooses_ucb np) Hna Hd)
    as (R & t' & Hrun & Hd' & Hpos' & calls & H).
  - split; [assumption|]. exists []. by rewrite app_nil_r.
  - intros b R u a u1 r u' Hb Hdu (Hposu & calls & Hcalls & Hfst & Hok) Hget _ _ E.
    destruct Hdu as (Hnbu & Hnau & Hwfu).
    destruct (ucb_get_action_Ok np i b u Hwfu) as (a' & crow & Hcrow & Hget' & _);
      [lia | lia |].
    rewrite Hget in Hget'. injection Hget' as -> ->.
    pose proof (Forall_lookup_1 _ _ _ _ Hposu Hcrow) as Hrowpos.
    destruct Hwfu as (_ & _ & Hshape).
    pose proof (shaped_row _ _ _ _ _ Hshape Hcrow) as Hrowlen.
    destruct (eff_counts _ _ _ _ _ _ _ _ E) as (crow' & c & Hcrow' & Hc & Hc').
    simpl in Hcrow'. rewrite Hcrow in Hcrow'. injection Hcrow' as <-.
    split.
    + rewrite Hc'. simpl. unfold counts_positive.
      apply Forall_insert; [assumption|]. apply Forall_insert; [assumption|].
      pose proof (Forall_lookup_1 _ _ _ _ Hrowpos Hc) as Hc1. simpl in Hc1. lia.
    + exists (calls ++ [(i, crow)]).
      rewrite replicate_S_end, (eff_ucb_calls _ _ _ _ _ _ _ _ E).
      cbn [ucb_calls set_ucb_calls].
      rewrite Hcalls, map_app, Hfst, <- app_assoc. cbn [map fst].
      split; [reflexivity|]. split; [reflexivity|].
      apply Forall_app. split; [assumption|]. constructor; [|constructor].
      split; simpl; [lia | assumption].
  - by exists R, t', calls.
Qed.

Lemma ucb_learn_calls (n : nat) s :
  0 < na -> fresh nb na s ->
  exists s',
    UCB.learn np (Z.of_nat n) s = Ok s' /\
    map fst (ucb_calls s') = flat_map (replicate nb) (range n) /\
    Forall (call_counts_ok na) (ucb_calls s').
Proof.
  intros Hna Hf. unfold UCB.learn, learn_warm.
  destruct (initial_run_no_call s Hf) as (s1 & -> & Hd1 & Hpos1 & Hcalls1). simpl.
  destruct (main_loop_inv (one_step_counted np (UCB.get_action np))
    (fun i t => dims nb na t /\ counts_positive (_counts t) /\
       map fst (ucb_calls t) = flat_map (replicate nb) (range i) /\
       Forall (call_counts_ok na) (ucb_calls t))
    (Z.of_nat n) s1) as (s' & Hrun & _ & _ & Hfst & Hok).
  - rewrite Hcalls1. split; [assumption|]. split; [assumption|].
    split; [reflexivity | constructor].
  - intros i t _ (Hdt & Hpost & Hfst & Hok).
    destruct (ucb_one_step_calls i t Hna Hdt Hpost)
      as (R & t' & calls & Hstep & Hdt' & Hpost' & Hcalls & Hfst' & Hok').
    exists R, t'. split; [exact Hstep|].
    cbn [ucb_calls _counts set_avg_reward].
    split; [exact Hdt'|]. split; [assumption|].
    rewrite Hcalls, map_app, Hfst, Hfst'. unfold range. rewrite seq_S.
    rewrite flat_map_app. simpl. rewrite app_nil_r.
    split; [reflexivity|]. apply Forall_app. by split.
  - rewrite Nat2Z.id in Hfst. by exists s'.
Qed.

End UcbCalls.

(** C2, as the code has it.  In [learn(n)] on a newly constructed UCB policy
    the main loop evaluates [get_action] once per bandit and timestep; every
    evaluation sees counts that are all at least 1, but its timestep argument
    is the loop index, which runs over [0, 1, ..., n - 1]: the evaluations of
    the first two timesteps take [log] at 0 and at 1. *)
Theorem ucb_get_action_arguments np k (nb na n : nat) :
  0 < na ->
  exists s s',
    UCB.__init__ np k (Z.of_nat nb) (Z.of_nat na) = Ok s /\
    UCB.learn np (Z.of_nat n) s = Ok s' /\
    map fst (ucb_calls s') = flat_map (replicate nb) (range n) /\
    Forall (call_counts_ok na) (ucb_calls s').
Proof.
  intros Hna.
  destruct (ucb_init_fresh np k nb na) as (s & Hs & Hf).
  destruct (ucb_learn_calls np nb na n s Hna Hf) as (s' & Hrun & H).
  by exists s, s'.
Qed.

Lemma ucb_get_action_arguments_witness :
  exists s s',
    UCB.__init__ np0 0 (Z.of_nat 1) (Z.of_nat 1) = Ok s /\
    UCB.learn np0 (Z.of_nat 3) s = Ok s' /\
    map fst (ucb_calls s') = [0; 1; 2] /\
    Forall (call_counts_ok 1) (ucb_calls s').
Proof.
  apply (ucb_get_action_arguments np0 0 1 1 3). lia.
Defined.

(** The failing run of C2: [UCB(bandits=1, arms=1)], [learn(2)]. *)
Lemma ucb_1_1_learn_2_calls :
  exists s s',
    UCB.__init__ np0 0 1 1 = Ok s /\ UCB.learn np0 2 s = Ok s' /\
    ucb_calls s' = [(0, [1%Z]); (1, [3%Z])].
Proof.
  eexists _, _. split; [reflexivity|]. split; [vm_compute; reflexivity|].
  reflexivity.
Qed.

(** The failing run of C1: [UCB(bandits=1, arms=1)], [learn(1)] leaves the
    only count at 3, where one visit of the initial run and one decision of
    the main loop were made. *)
Lemma ucb_1_1_learn_1_counts :
  exists s s',
    UCB.__init__ np0 0 1 1 = Ok s /\ UCB.learn np0 1 s = Ok s' /\
    _counts s' = [[3%Z]] /\ length (sampled s') = 2.
Proof.
  eexists _, _. split; [reflexivity|]. split; [vm_compute; reflexivity|].
  split; reflexivity.
Qed.

(** * Further properties of the policies *)

(** ** What a run keeps *)




Lemma s_cold_dims : dims 1 2 s_cold.
Proof. repeat split; repeat constructor. Qed.






(** ** The estimates of EpsGreedy *)

Lemma visits_snoc s s' b a r b' a' :
  sampled s' = sampled s ++ [(b, a, r)] ->
  visits s' b' a' =
    visits s b' a' + (if decide ((b, a) = (b', a')) then 1 else 0).
Proof.
  intros H. unfold visits. rewrite H, filter_app, length_app. f_equal.
  rewrite filter_cons, filter_nil. simpl. by case_decide.
Qed.

Lemma cell_rewards_snoc s s' b a r b' a' :
  sampled s' = sampled s ++ [(b, a, r)] ->
  cell_rewards s' b' a' =
    cell_rewards s b' a' ++ (if decide ((b, a) = (b', a')) then [r] else []).
Proof.
  intros H. unfold cell_rewards. rewrite H, filter_app, map_app. f_equal.
  rewrite filter_cons, filter_nil. simpl. by case_decide.
Qed.

Lemma sumQ_snoc xs (r : Q) : (sumQ (xs ++ [r]) == sumQ xs + r)%Q.
Proof.
  induction xs as [|x xs IH]; simpl; [ring|]. rewrite IH. ring.
Qed.

Section EpsCells.

Variable np : Numpy.
Variables nb na : nat.
Variable P : GaussianBandits -> Prop.

Hypothesis P_same : forall s s', same_tables s s' -> P s -> P s'.
Hypothesis P_effect : forall b a r s s',
  dims nb na s -> b < nb -> a < na -> effect np 0 1 b a r s s' -> P s -> P s'.
Hypothesis P_avg : forall v s, P s -> P (set_avg_reward v s).

(** An invariant kept by the decisions of EpsGreedy is kept by [learn]. *)
Lemma eps_learn_decisions n s :
  NumpyOk np -> 0 < na -> dims nb na s -> P s ->
  exists s', EpsGreedy.learn np n s = Ok s' /\ dims nb na s' /\ P s'.
Proof.
  intros Hnp Hna Hd HP. unfold EpsGreedy.learn.
  destruct (main_loop_inv (EpsGreedy.one_step np)
              (fun _ t => dims nb na t /\ P t) n s) as (s' & Hrun & Hd' & HP');
    [by split | | by eauto].
  intros i t _ [Hdt HPt].
  destruct (eps_one_step_inv np nb na (fun _ _ u => P u) i t Hnp Hna Hdt HPt)
    as (R & t' & Hstep & Hdt' & HPt').
  - intros b R u a u1 r u' Hb Hdu HPu _ Ha Hsame E.
    eapply P_effect; [| exact Hb | exact Ha | exact E | by eapply P_same].
    by eapply same_tables_dims.
  - exists R, t'. split; [assumption|]. split; [assumption | by apply P_avg].
Qed.

End EpsCells.

Lemma eps_cells_ok_fresh nb na s : fresh nb na s -> eps_cells_ok nb na s.
Proof.
  intros Hf b a Hb Ha. exists 0%Q. unfold visits, cell_rewards.
  rewrite (fr_Q _ _ _ Hf), (fr_counts _ _ _ Hf), (fr_sampled _ _ _ Hf). simpl.
  split; [|split; [|split]].
  - apply getitem_Ok with (row := replicate na 0%Q); by apply lookup_replicate_2.
  - apply getitem_Ok with (row := replicate na 0%Z); by apply lookup_replicate_2.
  - reflexivity.
  - reflexivity.
Qed.

Lemma eps_cells_ok_same nb na s s' :
  same_tables s s' -> eps_cells_ok nb na s -> eps_cells_ok nb na s'.
Proof.
  intros H Hok b a Hb Ha. unfold visits, cell_rewards.
  rewrite (st_Q _ _ H), (st_counts _ _ H), (st_sampled _ _ H). by apply Hok.
Qed.

Lemma eps_cells_ok_effect np nb na b a r s s' :
  dims nb na s -> b < nb -> a < na -> effect np 0 1 b a r s s' ->
  eps_cells_ok nb na s -> eps_cells_ok nb na s'.
Proof.
  intros _ Hb Ha E Hok b' a' Hb' Ha'.
  destruct (eff_counts _ _ _ _ _ _ _ _ E) as (crow & c & Hcrow & Hc & Hc').
  destruct (eff_Q _ _ _ _ _ _ _ _ E) as (qrow & q & c0 & Hqrow & Hq & Hc0 & Hq').
  rewrite (getitem_Ok _ _ _ _ _ Hcrow Hc) in Hc0. injection Hc0 as <-.
  rewrite (visits_snoc _ _ _ _ _ b' a' (eff_sampled _ _ _ _ _ _ _ _ E)).
  rewrite (cell_rewards_snoc _ _ _ _ _ b' a' (eff_sampled _ _ _ _ _ _ _ _ E)).
  rewrite Hq', Hc', (getitem_insert _ _ _ _ _ _ _ _ Hqrow Hq),
    (getitem_insert _ _ _ _ _ _ _ _ Hcrow Hc).
  destruct (Hok b' a' Hb' Ha') as (q0 & Hq0 & Hc0 & Hsum & Hzero).
  destruct (decide (b' = b /\ a' = a)) as [[-> ->]|Hne].
  - rewrite !decide_True by reflexivity.
    rewrite (getitem_Ok _ _ _ _ _ Hqrow Hq) in Hq0. injection Hq0 as <-.
    rewrite (getitem_Ok _ _ _ _ _ Hcrow Hc) in Hc0. injection Hc0 as ->.
    eexists. split; [reflexivity|]. split; [f_equal; lia|]. split; [|lia].
    replace (Z.of_nat (visits s b a) + 0)%Z with (Z.of_nat (visits s b a)) by lia.
    replace (Z.of_nat (visits s b a + 1)) with (Z.of_nat (visits s b a) + 1)%Z by lia.
    rewrite update_step_sum by lia. rewrite sumQ_snoc, Hsum. reflexivity.
  - rewrite !decide_False by (intros [= -> ->]; by apply Hne).
    rewrite Nat.add_0_r, app_nil_r. by exists q0.
Qed.

Lemma eps_learn_cells np k (nb na : nat) n x :
  NumpyOk np -> 0 < na ->
  exists s s',
    EpsGreedy.__init__ np k (Z.of_nat nb) (Z.of_nat na) x = Ok s /\
    EpsGreedy.learn np n s = Ok s' /\ eps_cells_ok nb na s'.
Proof.
  intros Hnp Hna.
  destruct (eps_init_fresh np k nb na x) as (s & Hs & Hf & _).
  destruct (eps_learn_decisions np nb na (eps_cells_ok nb na)
              (eps_cells_ok_same nb na) (eps_cells_ok_effect np nb na)
              (fun _ _ H => H) n s Hnp Hna (fr_dims _ _ _ Hf)
              (eps_cells_ok_fresh _ _ _ Hf)) as (s' & Hrun & _ & H').
  by exists s, s'.
Qed.

(** X3.  After [learn(n)] on a newly constructed EpsGreedy policy,
    [counts[b, a]] is the number of times arm [a] of bandit [b] was chosen
    and sampled. *)
Theorem eps_counts_are_visits np k (nb na : nat) n x :
  NumpyOk np -> 0 < na ->
  exists s s',
    EpsGreedy.__init__ np k (Z.of_nat nb) (Z.of_nat na) x = Ok s /\
    EpsGreedy.learn np n s = Ok s' /\
    forall b a, b < nb -> a < na ->
      getitem (_counts s') b a = Ok (Z.of_nat (visits s' b a)).
Proof.
  intros Hnp Hna.
  destruct (eps_learn_cells np k nb na n x Hnp Hna) as (s & s' & Hs & Hrun & Hok).
  exists s, s'. split; [assumption|]. split; [assumption|].
  intros b a Hb Ha. by destruct (Hok b a Hb Ha) as (q & _ & Hc & _).
Qed.

Lemma eps_counts_are_visits_witness :
  exists s s',
    EpsGreedy.__init__ np0 0 (Z.of_nat 2) (Z.of_nat 3) (1 # 20) = Ok s /\
    EpsGreedy.learn np0 4 s = Ok s' /\
    forall b a, b < 2 -> a < 3 ->
      getitem (_counts s') b a = Ok (Z.of_nat (visits s' b a)).
Proof.
  apply (eps_counts_are_visits np0 0 2 3 4 (1 # 20)).
  - exact np0_ok.
  - lia.
Defined.

(** X4.  After [learn(n)] on a newly constructed EpsGreedy policy, the
    estimate [Q[b, a]] of a cell that was visited is the arithmetic mean of
    the rewards sampled for that cell, and the estimate of a cell never
    visited is still the initial zero. *)
Theorem eps_estimate_is_mean_of_cell_rewards np k (nb na : nat) n x :
  NumpyOk np -> 0 < na ->
  exists s s',
    EpsGreedy.__init__ np k (Z.of_nat nb) (Z.of_nat na) x = Ok s /\
    EpsGreedy.learn np n s = Ok s' /\
    forall b a, b < nb -> a < na ->
      exists q,
        getitem (_Q s') b a = Ok q /\
        (0 < visits s' b a -> (q == mean (cell_rewards s' b a))%Q) /\
        (visits s' b a = 0 -> q = 0%Q).
Proof.
  intros Hnp Hna.
  destruct (eps_learn_cells np k nb na n x Hnp Hna) as (s & s' & Hs & Hrun & Hok).
  exists s, s'. split; [assumption|]. split; [assumption|].
  intros b a Hb Ha. destruct (Hok b a Hb Ha) as (q & Hq & _ & Hsum & Hzero).
  exists q. split; [assumption|]. split; [|assumption].
  intros Hpos. unfold mean.
  assert (length (cell_rewards s' b a) = visits s' b a) as ->
    by (unfold cell_rewards, visits; apply length_map).
  assert (~ (inject_Z (Z.of_nat (visits s' b a)) == 0)%Q) as Hn.
  { intros H0. unfold Qeq in H0. simpl in H0. lia. }
  apply (Qmult_inj_r _ _ _ Hn). rewrite Hsum. field. exact Hn.
Qed.

Lemma eps_estimate_is_mean_of_cell_rewards_witness :
  exists s s',
    EpsGreedy.__init__ np0 0 (Z.of_nat 2) (Z.of_nat 3) (1 # 20) = Ok s /\
    EpsGreedy.learn np0 4 s = Ok s' /\
    forall b a, b < 2 -> a < 3 ->
      exists q,
        getitem (_Q s') b a = Ok q /\
        (0 < visits s' b a -> (q == mean (cell_rewards s' b a))%Q) /\
        (visits s' b a = 0 -> q = 0%Q).
Proof.
  apply (eps_estimate_is_mean_of_cell_rewards np0 0 2 3 4 (1 # 20)).
  - exact np0_ok.
  - lia.
Defined.

(** ** The counts of UCB and SoftmaxActionSelection *)

Lemma initial_run_visits_every_cell np nb na s :
  dims nb na s ->
  exists s', initial_run np s = Ok s' /\ dims nb na s' /\
    forall b a, b < nb -> a < na ->
      visits s' b a = visits s b a + 1 /\
      exists c, getitem (_counts s) b a = Ok c /\
                getitem (_counts s') b a = Ok (c + 1)%Z.
Proof.
  intros Hd.
  destruct (initial_run_cells_inv np nb na
    (fun v t => forall b a, b < nb -> a < na ->
       visits t b a = visits s b a + (if decide (b * na + a < v) then 1 else 0) /\
       exists c, getitem (_counts s) b a = Ok c /\
         getitem (_counts t) b a =
           Ok (c + if decide (b * na + a < v)%nat then 1 else 0)%Z) s Hd)
    as (s' & Hrun & Hd' & H).
  - intros b a Hb Ha. rewrite decide_False by lia. split; [lia|].
    destruct Hd as (Hnb & Hna & _ & _ & Hc). rewrite Hnb, Hna in Hc.
    destruct (shaped_lookup _ _ _ b a Hc Hb Ha) as (crow & c & Hcrow & Hca & _).
    exists c. rewrite Z.add_0_r. split; by eapply getitem_Ok.
  - intros b a t r t' Hb Ha Hdt Hinv E b' a' Hb' Ha'.
    destruct (Hinv b' a' Hb' Ha') as (Hv & c & Hc0 & Hct).
    destruct (eff_counts _ _ _ _ _ _ _ _ E) as (crow & c1 & Hcrow & Hc1 & Hc').
    rewrite (visits_snoc _ _ _ _ _ b' a' (eff_sampled _ _ _ _ _ _ _ _ E)), Hv.
    rewrite Hc', (getitem_insert _ _ _ _ _ _ _ _ Hcrow Hc1).
    destruct (decide (b' = b /\ a' = a)) as [[-> ->]|Hne].
    + rewrite (decide_True (P := (b, a) = (b, a))) by reflexivity.
      rewrite (decide_False (P := b * na + a < b * na + a)) in Hct by lia.
      rewrite (decide_False (P := b * na + a < b * na + a)) by lia.
      rewrite (getitem_Ok _ _ _ _ _ Hcrow Hc1) in Hct. injection Hct as ->.
      rewrite !decide_True by lia.
      split; [lia|]. exists c. split; [assumption|]. f_equal. lia.
    + rewrite (decide_False (P := (b, a) = (b', a')))
        by (intros [= -> ->]; by apply Hne).
      assert (b' * na + a' <> b * na + a).
      { intros Heq. apply Hne. by apply (row_major_inj na). }
      destruct (decide (b' * na + a' < b * na + a)).
      * rewrite !decide_True by lia. split; [lia|]. by exists c.
      * rewrite !decide_False by lia. split; [lia|]. by exists c.
  - intros v x t H. exact H.
  - exists s'. split; [assumption|]. split; [assumption|].
    intros b a Hb Ha. destruct (H b a Hb Ha) as (Hv & c & Hc0 & Hct).
    assert (b * na + a < nb * na) as Hlt.
    { apply Nat.lt_le_trans with (b * na + na); [lia|].
      replace (b * na + na) with (S b * na) by lia.
      apply Nat.mul_le_mono_r. lia. }
    rewrite decide_True in Hv by assumption.
    rewrite decide_True in Hct by assumption.
    split; [assumption|]. by exists c.
Qed.

(** X5.  From every well-formed state, [initial_run] of UCB and of
    SoftmaxActionSelection returns normally, samples every arm of every
    bandit exactly once and raises every count by exactly 1; a second
    [learn] therefore visits every arm once more. *)
Theorem initial_run_visits_every_arm_once np (nb na : nat) s :
  dims nb na s ->
  (exists s', UCB.initial_run np s = Ok s' /\ wf s' /\
     forall b a, b < nb -> a < na ->
       visits s' b a = visits s b a + 1 /\
       exists c, getitem (_counts s) b a = Ok c /\
                 getitem (_counts s') b a = Ok (c + 1)%Z) /\
  (exists s', SoftmaxActionSelection.initial_run np s = Ok s' /\ wf s' /\
     forall b a, b < nb -> a < na ->
       visits s' b a = visits s b a + 1 /\
       exists c, getitem (_counts s) b a = Ok c /\
                 getitem (_counts s') b a = Ok (c + 1)%Z).
Proof.
  intros Hd.
  destruct (initial_run_visits_every_cell np nb na s Hd) as (s' & Hrun & Hd' & H).
  split; exists s'; (split; [exact Hrun|]); (split; [apply Hd' | exact H]).
Qed.

Lemma s_warm_dims : dims 1 1 s_warm.
Proof. repeat split; repeat constructor. Qed.

Lemma initial_run_visits_every_arm_once_witness :
  (exists s', UCB.initial_run np0 s_warm = Ok s' /\ wf s' /\
     forall b a, b < 1 -> a < 1 ->
       visits s' b a = visits s_warm b a + 1 /\
       exists c, getitem (_counts s_warm) b a = Ok c /\
                 getitem (_counts s') b a = Ok (c + 1)%Z) /\
  (exists s', SoftmaxActionSelection.initial_run np0 s_warm = Ok s' /\ wf s' /\
     forall b a, b < 1 -> a < 1 ->
       visits s' b a = visits s_warm b a + 1 /\
       exists c, getitem (_counts s_warm) b a = Ok c /\
                 getitem (_counts s') b a = Ok (c + 1)%Z).
Proof.
  apply (initial_run_visits_every_arm_once np0 1 1 s_warm).
  exact s_warm_dims.
Defined.

Section CountedCells.

Variable np : Numpy.
Variables nb na : nat.
Variable P : GaussianBandits -> Prop.

Hypothesis P_same : forall s s', same_tables s s' -> P s -> P s'.
Hypothesis P_effect : forall b a r s s',
  dims nb na s -> b < nb -> a < na -> effect np 1 1 b a r s s' -> P s -> P s'.
Hypothesis P_avg : forall v s, P s -> P (set_avg_reward v s).


End CountedCells.






(** ** EpsGreedy at the two ends of [eps] *)

(** X7.  With [eps >= 1] EpsGreedy.get_action always explores: whatever the
    estimates and whatever the bandit, it returns the [randint] draw, an arm
    index below [narms], and consumes two draws of the random stream. *)
Theorem eps_one_get_action_always_explores np b s :
  NumpyOk np -> (1 <= _eps s)%Q -> 0 < _narms s ->
  EpsGreedy.get_action np b s =
    Ok (randint np (S (draws s)) (_narms s), tick (tick s)) /\
  randint np (S (draws s)) (_narms s) < _narms s.
Proof.
  intros Hnp Heps Hna. split; [|by apply (randint_range np Hnp)].
  unfold EpsGreedy.get_action.
  assert (Qltb (random np (draws s)) (_eps (tick s)) = true) as ->.
  { apply Qltb_lt. simpl. eapply Qlt_le_trans; [|exact Heps].
    apply (random_range np Hnp). }
  rewrite decide_False by (simpl; lia). reflexivity.
Qed.

Lemma eps_one_get_action_always_explores_witness :
  EpsGreedy.get_action np0 0 (set_eps 1 s_cold) =
    Ok (randint np0 (S (draws (set_eps 1 s_cold))) (_narms (set_eps 1 s_cold)),
        tick (tick (set_eps 1 s_cold))) /\
  randint np0 (S (draws (set_eps 1 s_cold))) (_narms (set_eps 1 s_cold))
    < _narms (set_eps 1 s_cold).
Proof.
  apply (eps_one_get_action_always_explores np0 0 (set_eps 1 s_cold)).
  - exact np0_ok.
  - simpl. apply Qle_refl.
  - simpl. lia.
Defined.

Lemma argmax_from_is_max xs : forall pre best besti,
  pre !! besti = Some best ->
  (pre ++ xs) !! argmax_from best besti (length pre) xs = Some (max_from best xs).
Proof.
  induction xs as [|x xs IH]; intros pre best besti Hbest; simpl.
  - rewrite app_nil_r. assumption.
  - replace (pre ++ x :: xs) with ((pre ++ [x]) ++ xs) by (by rewrite <- app_assoc).
    replace (S (length pre)) with (length (pre ++ [x]))
      by (rewrite length_app; simpl; lia).
    destruct (Qltb best x).
    + apply IH. by rewrite lookup_app_r, Nat.sub_diag.
    + apply IH. by apply lookup_app_l_Some.
Qed.

(** The entry at [np.argmax] is Python's [max]. *)
Lemma argmax_is_pymax row a :
  argmax row = Ok a -> exists best, pymax row = Ok best /\ row !! a = Some best.
Proof.
  destruct row as [|x xs]; simpl; [discriminate|]. intros [= <-].
  eexists. split; [reflexivity|].
  exact (argmax_from_is_max xs [x] x 0 eq_refl).
Qed.

(** The body of EpsGreedy's bandit loop when nothing is explored: the arm is
    the argmax of the row, and the regret recorded is zero. *)
Lemma decide_for_greedy np b R s :
  NumpyOk np -> (_eps s == 0)%Q -> wf s -> b < _nbandits s -> 0 < _narms s ->
  exists row a r s',
    _Q s !! b = Some row /\ argmax row = Ok a /\ a < _narms s /\
    EpsGreedy.decide_for np b (R, s) = Ok (R ++ [r], s') /\
    effect np 0 1 b a r (tick s) s' /\
    (_regret s' == _regret s)%Q.
Proof.
  intros Hnp Heps (Hr & Hq & Hc) Hb Hna.
  destruct (shaped_lookup _ _ _ b 0 Hq Hb Hna) as (qrow & x & Hqrow & _ & Hlen).
  destruct (argmax_Ok qrow) as (a & Harg & Ha); [lia|]. rewrite Hlen in Ha.
  destruct (argmax_is_pymax _ _ Harg) as (best & Hbest & Hqa).
  destruct (shaped_lookup _ _ _ b a Hr Hb Ha) as (mrow & mu & Hmrow & Hmu & _).
  destruct (shaped_lookup _ _ _ b a Hc Hb Ha) as (crow & c & Hcrow & Hca & _).
  exists qrow, a. unfold EpsGreedy.decide_for, EpsGreedy.get_action.
  assert (Qltb (random np (draws s)) (_eps (tick s)) = false) as ->.
  { apply Qltb_ge. simpl. rewrite Heps. apply (random_range np Hnp). }
  unfold getrow. simpl. rewrite Hqrow. simpl. rewrite Harg. simpl.
  rewrite (get_reward_Ok np b a (tick s) mrow mu Hmrow Hmu). simpl.
  set (r := normal np (S (draws s)) mu).
  unfold update_regret, getrow, getidx. simpl. rewrite Hqrow. simpl.
  rewrite Hbest. simpl. rewrite Hqa. simpl.
  set (s3 := set_regret _ _ _).
  rewrite (update_Q_Ok b a r s3 qrow best crow c Hqrow Hqa Hcrow Hca). simpl.
  set (s4 := set_Q _ _).
  rewrite (incr_counts_Ok b a s4 crow c Hcrow Hca). simpl.
  eexists _, _. split; [reflexivity|]. split; [reflexivity|].
  split; [assumption|]. split; [reflexivity|]. split.
  - constructor; simpl; try reflexivity.
    + exists mu. split; [by eapply getitem_Ok | reflexivity].
    + exists crow, c. repeat split; try assumption.
      by replace (c + 0 + 1)%Z with (c + 1)%Z by lia.
    + exists qrow, best, c. repeat split; try assumption.
      * by eapply getitem_Ok.
      * by replace (c + 0)%Z with c by lia.
    + exists (best - best)%Q. split; [|split; reflexivity].
      unfold Qminus. rewrite Qplus_opp_r. apply Qle_refl.
  - simpl. ring.
Qed.

Lemma no_regret_decision np b a r s s' :
  effect np 0 1 b a r (tick s) s' -> (_regret s' == _regret s)%Q ->
  no_regret s -> no_regret s'.
Proof.
  intros E Hreg (Heps & H0 & Hall).
  destruct (eff_regret _ _ _ _ _ _ _ _ E) as (gap & _ & _ & Hrs).
  unfold no_regret. rewrite (eff_eps _ _ _ _ _ _ _ _ E), Hrs. simpl.
  split; [assumption|]. split; [by rewrite Hreg|].
  apply Forall_app. split; [assumption|].
  constructor; [by rewrite Hreg | constructor].
Qed.

Lemma eps_learn_no_regret np nb na n s :
  NumpyOk np -> 0 < na -> dims nb na s -> no_regret s ->
  exists s', EpsGreedy.learn np n s = Ok s' /\ dims nb na s' /\ no_regret s'.
Proof.
  intros Hnp Hna Hd H0. unfold EpsGreedy.learn.
  destruct (main_loop_inv (EpsGreedy.one_step np)
              (fun _ t => dims nb na t /\ no_regret t) n s)
    as (s' & Hrun & Hd' & H'); [by split | | by eauto].
  intros i t _ [Hdt Ht]. unfold EpsGreedy.one_step.
  pose proof Hdt as (Hnbt & _). rewrite Hnbt.
  destruct (for_range_inv
              (fun _ acc => dims nb na acc.2 /\ no_regret acc.2)
              (EpsGreedy.decide_for np) nb ([], t)) as ([R t'] & Hstep & Hdt' & Ht').
  - by split.
  - intros b [R u] Hb [(Hnbu & Hnau & Hwfu) Hu]. simpl in *.
    destruct (decide_for_greedy np b R u Hnp (proj1 Hu) Hwfu)
      as (row & a & r & u' & _ & _ & _ & Hrun & E & Hreg); [lia | lia |].
    exists (R ++ [r], u'). split; [assumption|]. simpl. split.
    + eapply effect_dims; [exact E|]. by split.
    + by eapply no_regret_decision.
  - exists R, t'. split; [assumption|]. by split.
Qed.

(** X8.  A purely greedy EpsGreedy policy ([eps = 0]) never records regret:
    the arm it chooses holds the maximum of the estimates the regret is
    measured against, so after [learn(n)] on a newly constructed policy every
    entry of the regret sequence and the cumulative regret are zero. *)
Theorem eps_zero_regret_is_zero np k (nb na : nat) n x :
  NumpyOk np -> 0 < na -> (x == 0)%Q ->
  exists s s',
    EpsGreedy.__init__ np k (Z.of_nat nb) (Z.of_nat na) x = Ok s /\
    EpsGreedy.learn np n s = Ok s' /\
    Forall (fun r => (r == 0)%Q) (_regrets s') /\ (_regret s' == 0)%Q.
Proof.
  intros Hnp Hna Hx.
  destruct (eps_init_fresh np k nb na x) as (s & Hs & Hf & Heps).
  destruct (eps_learn_no_regret np nb na n s Hnp Hna (fr_dims _ _ _ Hf))
    as (s' & Hrun & _ & _ & Hreg & Hall).
  - unfold no_regret.
    rewrite Heps, (fr_regret _ _ _ Hf), (fr_regrets _ _ _ Hf).
    split; [assumption|]. split; [reflexivity|]. by repeat constructor.
  - by exists s, s'.
Qed.

Lemma eps_zero_regret_is_zero_witness :
  exists s s',
    EpsGreedy.__init__ np0 0 (Z.of_nat 2) (Z.of_nat 3) 0 = Ok s /\
    EpsGreedy.learn np0 4 s = Ok s' /\
    Forall (fun r => (r == 0)%Q) (_regrets s') /\ (_regret s' == 0)%Q.
Proof.
  apply (eps_zero_regret_is_zero np0 0 2 3 4 0).
  - exact np0_ok.
  - lia.
  - reflexivity.
Defined.

Lemma Qltb_irrefl x : Qltb x x = false.
Proof. apply Qltb_ge, Qle_refl. Qed.

Lemma argmax_from_replicate n x besti i :
  argmax_from x besti i (replicate n x) = besti.
Proof.
  revert i. induction n as [|n IH]; intros i; simpl; [reflexivity|].
  by rewrite Qltb_irrefl.
Qed.

(** Among equal estimates [np.argmax] picks arm 0. *)
Lemma argmax_replicate n x a : argmax (replicate n x) = Ok a -> a = 0.
Proof.
  destruct n as [|n]; simpl; [discriminate|].
  rewrite argmax_from_replicate. by intros [= <-].
Qed.

Lemma eps_cold_one_step np nb na i s :
  NumpyOk np -> 0 < na -> fresh nb na s -> (_eps s == 0)%Q ->
  exists R s',
    EpsGreedy.one_step np i s = Ok (R, s') /\
    map fst (sampled s') = map (fun b => (b, 0)) (range nb).
Proof.
  intros Hnp Hna Hf Heps. unfold EpsGreedy.one_step.
  pose proof (fr_dims _ _ _ Hf) as Hd. pose proof Hd as (Hnb & _). rewrite Hnb.
  destruct (for_range_inv
    (fun j acc => dims nb na acc.2 /\ (_eps acc.2 == 0)%Q /\
       (forall b', j <= b' -> b' < nb -> _Q acc.2 !! b' = Some (replicate na 0%Q)) /\
       map fst (sampled acc.2) = map (fun b => (b, 0)) (seq 0 j))
    (EpsGreedy.decide_for np) nb ([], s)) as ([R s'] & Hrun & _ & _ & _ & Hs').
  - simpl. split; [assumption|]. split; [assumption|]. split.
    + intros b' _ Hb'. rewrite (fr_Q _ _ _ Hf). by apply lookup_replicate_2.
    + by rewrite (fr_sampled _ _ _ Hf).
  - intros b [R u] Hb ((Hnbu & Hnau & Hwfu) & Hepsu & Hrows & Hsu).
    cbn [fst snd] in *.
    destruct (decide_for_greedy np b R u Hnp Hepsu Hwfu)
      as (row & a & r & u' & Hrow & Harg & _ & Hrun & E & _); [lia | lia |].
    rewrite (Hrows b) in Hrow by lia. injection Hrow as <-.
    apply argmax_replicate in Harg as ->.
    exists (R ++ [r], u'). split; [assumption|]. cbn [fst snd].
    split; [eapply effect_dims; [exact E | by split]|].
    split; [by rewrite (eff_eps _ _ _ _ _ _ _ _ E)|]. split.
    + intros b' Hle Hb'.
      destruct (eff_Q _ _ _ _ _ _ _ _ E) as (qrow & q & c & _ & _ & _ & ->).
      rewrite list_lookup_insert_ne by lia. apply Hrows; lia.
    + rewrite (eff_sampled _ _ _ _ _ _ _ _ E).
      change (sampled (tick u)) with (sampled u).
      by rewrite map_app, Hsu, seq_S, map_app.
  - by exists R, s'.
Qed.

(** X9.  The cold start of EpsGreedy without exploration: in the first
    timestep on a newly constructed policy with [eps = 0], all estimates are
    tied at zero and every bandit chooses arm 0. *)
Theorem eps_zero_first_timestep_chooses_arm_0 np k (nb na : nat) x :
  NumpyOk np -> 0 < na -> (x == 0)%Q ->
  exists s s',
    EpsGreedy.__init__ np k (Z.of_nat nb) (Z.of_nat na) x = Ok s /\
    EpsGreedy.learn np 1 s = Ok s' /\
    map fst (sampled s') = map (fun b => (b, 0)) (range nb).
Proof.
  intros Hnp Hna Hx.
  destruct (eps_init_fresh np k nb na x) as (s & Hs & Hf & Heps).
  destruct (eps_cold_one_step np nb na 0 s Hnp Hna Hf) as (R & s' & Hrun & Hs');
    [by rewrite Heps|].
  exists s. eexists. split; [assumption|].
  unfold EpsGreedy.learn, main_loop. simpl. unfold timestep. rewrite Hrun. simpl.
  split; [reflexivity | exact Hs'].
Qed.

Lemma eps_zero_first_timestep_chooses_arm_0_witness :
  exists s s',
    EpsGreedy.__init__ np0 0 (Z.of_nat 3) (Z.of_nat 2) 0 = Ok s /\
    EpsGreedy.learn np0 1 s = Ok s' /\
    map fst (sampled s') = map (fun b => (b, 0)) (range 3).
Proof.
  apply (eps_zero_first_timestep_chooses_arm_0 np0 0 3 2 0).
  - exact np0_ok.
  - lia.
  - reflexivity.
Defined.

(** ** Degenerate dimensions *)

Lemma for_each_raise_first {A S} (x : A) xs (body : A -> S -> result S) s e :
  body x s = Raise e -> for_each (x :: xs) body s = Raise e.
Proof. intros H. simpl. by rewrite H. Qed.

Lemma main_loop_raise_first one_step n s e :
  (0 < n)%Z -> one_step 0 s = Raise e -> main_loop one_step n s = Raise e.
Proof.
  intros Hn H. unfold main_loop.
  destruct (Z.to_nat n) as [|m] eqn:E; [lia|].
  apply for_each_raise_first. unfold timestep. by rewrite H.
Qed.

Lemma empty_row nb s b row :
  dims nb 0 s -> _Q s !! b = Some row -> row = [].
Proof.
  intros (_ & Hna & _ & Hq & _) Hrow. rewrite Hna in Hq.
  pose proof (shaped_row _ _ _ _ _ Hq Hrow) as Hl. by destruct row.
Qed.

Lemma no_arms_rows (nb : nat) s :
  dims nb 0 s -> 0 < nb ->
  exists crow, _Q s !! 0 = Some [] /\ _counts s !! 0 = Some crow /\ crow = [].
Proof.
  intros (Hnb & Hna & _ & Hq & Hc) Hpos. rewrite Hnb, Hna in Hq, Hc.
  destruct (lookup_lt_is_Some_2 (_Q s) 0) as [qrow Hqrow]; [destruct Hq; lia|].
  destruct (lookup_lt_is_Some_2 (_counts s) 0) as [crow Hcrow]; [destruct Hc; lia|].
  pose proof (shaped_row _ _ _ _ _ Hq Hqrow) as Hl.
  pose proof (shaped_row _ _ _ _ _ Hc Hcrow) as Hl'.
  destruct qrow; [|discriminate]. destruct crow; [|discriminate]. eauto.
Qed.

(** X10.  A policy constructed with at least one bandit and no arm is
    accepted by the constructor, but [learn] of at least one timestep raises
    [ValueError] in its first decision, for each of the three policies:
    [np.argmax], [np.random.randint] and [np.random.choice] refuse an empty
    range of arms. *)
Theorem learn_without_arms_raises np k (nb : nat) n x :
  0 < nb -> (0 < n)%Z ->
  (exists s,
     EpsGreedy.__init__ np k (Z.of_nat nb) 0 x = Ok s /\
     EpsGreedy.learn np n s = Raise ValueError) /\
  (exists s,
     UCB.__init__ np k (Z.of_nat nb) 0 = Ok s /\
     UCB.learn np n s = Raise ValueError) /\
  (exists s,
     SoftmaxActionSelection.__init__ np k (Z.of_nat nb) 0 x = Ok s /\
     SoftmaxActionSelection.learn np n s = Raise ValueError).
Proof.
  intros Hnb Hn. split; [|split].
  - destruct (eps_init_fresh np k nb 0 x) as (s & Hs & Hf & _).
    exists s. split; [exact Hs|].
    pose proof (fr_dims _ _ _ Hf) as Hd.
    destruct (no_arms_rows nb s Hd Hnb) as (crow & Hq & _).
    apply main_loop_raise_first; [assumption|].
    unfold EpsGreedy.one_step. destruct Hd as (-> & Hna & _).
    destruct nb as [|m]; [lia|]. apply for_each_raise_first.
    unfold EpsGreedy.decide_for, EpsGreedy.get_action.
    destruct (Qltb _ _).
    + by rewrite decide_True by (simpl; assumption).
    + unfold getrow. simpl. by rewrite Hq.
  - destruct (ucb_init_fresh np k nb 0) as (s & Hs & Hf).
    exists s. split; [exact Hs|].
    destruct (initial_run_visits_every_cell np nb 0 s (fr_dims _ _ _ Hf))
      as (s1 & Hrun & Hd1 & _).
    unfold UCB.learn, learn_warm. rewrite Hrun. simpl.
    destruct (no_arms_rows nb s1 Hd1 Hnb) as (crow & Hq & Hc & ->).
    apply main_loop_raise_first; [assumption|].
    unfold one_step_counted. destruct Hd1 as (-> & Hna & _).
    destruct nb as [|m]; [lia|]. apply for_each_raise_first.
    unfold decide_counted, UCB.get_action, getrow. by rewrite Hq, Hc.
  - destruct (softmax_init_fresh np k nb 0 x) as (s & Hs & Hf & _).
    exists s. split; [exact Hs|].
    destruct (initial_run_visits_every_cell np nb 0 s (fr_dims _ _ _ Hf))
      as (s1 & Hrun & Hd1 & _).
    unfold SoftmaxActionSelection.learn, learn_warm. rewrite Hrun. simpl.
    destruct (no_arms_rows nb s1 Hd1 Hnb) as (crow & Hq & _).
    apply main_loop_raise_first; [assumption|].
    unfold one_step_counted. destruct Hd1 as (-> & Hna & _).
    destruct nb as [|m]; [lia|]. apply for_each_raise_first.
    unfold decide_counted, SoftmaxActionSelection.get_action, getrow.
    rewrite Hq. simpl. by rewrite decide_True.
Qed.

Lemma learn_without_arms_raises_witness :
  (exists s,
     EpsGreedy.__init__ np0 0 (Z.of_nat 2) 0 0 = Ok s /\
     EpsGreedy.learn np0 3 s = Raise ValueError) /\
  (exists s,
     UCB.__init__ np0 0 (Z.of_nat 2) 0 = Ok s /\
     UCB.learn np0 3 s = Raise ValueError) /\
  (exists s,
     SoftmaxActionSelection.__init__ np0 0 (Z.of_nat 2) 0 0 = Ok s /\
     SoftmaxActionSelection.learn np0 3 s = Raise ValueError).
Proof.
  apply (learn_without_arms_raises np0 0 2 3 0); lia.
Defined.

Lemma main_loop_without_bandits one_step (n : nat) s :
  (forall i t, _nbandits t = 0 -> one_step i t = Ok ([], t)) ->
  _nbandits s = 0 ->
  exists s', main_loop one_step (Z.of_nat n) s = Ok s' /\
    _nbandits s' = 0 /\ sampled s' = sampled s /\ _regrets s' = _regrets s /\
    _Q s' = _Q s /\ _counts s' = _counts s /\
    length (_avg_reward s') = length (_avg_reward s) + n.
Proof.
  intros Hstep H0.
  destruct (main_loop_inv one_step
    (fun i t => _nbandits t = 0 /\ sampled t = sampled s /\
       _regrets t = _regrets s /\ _Q t = _Q s /\ _counts t = _counts s /\
       length (_avg_reward t) = length (_avg_reward s) + i) (Z.of_nat n) s)
    as (s' & Hrun & H).
  - repeat split; [assumption | lia].
  - intros i t _ (Hnb & Hs & Hr & Hq & Hc & Hlen).
    exists [], t. split; [by apply Hstep|]. simpl.
    rewrite length_app. simpl. repeat split; try assumption. lia.
  - rewrite Nat2Z.id in H. by exists s'.
Qed.

(** X11.  A policy constructed with no bandit is accepted, and [learn(n)]
    returns normally for each of the three policies without making a
    decision: nothing is sampled, [Q] and [counts] stay empty, the regret
    sequence stays at its initial entry, and [avg_reward] still receives one
    entry per timestep. *)
Theorem learn_without_bandits_decides_nothing np k (na n : nat) x :
  (exists s s',
     EpsGreedy.__init__ np k 0 (Z.of_nat na) x = Ok s /\
     EpsGreedy.learn np (Z.of_nat n) s = Ok s' /\
     sampled s' = [] /\ _regrets s' = [0%Q] /\ _Q s' = [] /\ _counts s' = [] /\
     length (_avg_reward s') = n) /\
  (exists s s',
     UCB.__init__ np k 0 (Z.of_nat na) = Ok s /\
     UCB.learn np (Z.of_nat n) s = Ok s' /\
     sampled s' = [] /\ _regrets s' = [0%Q] /\ _Q s' = [] /\ _counts s' = [] /\
     length (_avg_reward s') = n) /\
  (exists s s',
     SoftmaxActionSelection.__init__ np k 0 (Z.of_nat na) x = Ok s /\
     SoftmaxActionSelection.learn np (Z.of_nat n) s = Ok s' /\
     sampled s' = [] /\ _regrets s' = [0%Q] /\ _Q s' = [] /\ _counts s' = [] /\
     length (_avg_reward s') = n).
Proof.
  assert (forall s, fresh 0 na s ->
            _nbandits s = 0 /\ sampled s = [] /\ _regrets s = [0%Q] /\
            _Q s = [] /\ _counts s = [] /\ _avg_reward s = []) as Hfresh.
  { intros s Hf. destruct (fr_dims _ _ _ Hf) as (Hnb & _).
    rewrite (fr_sampled _ _ _ Hf), (fr_regrets _ _ _ Hf), (fr_Q _ _ _ Hf),
      (fr_counts _ _ _ Hf), (fr_avg_reward _ _ _ Hf). by repeat split. }
  split; [|split].
  - destruct (eps_init_fresh np k 0 na x) as (s & Hs & Hf & _).
    destruct (Hfresh s Hf) as (Hnb & Hsa & Hr & Hq & Hc & Havg).
    destruct (main_loop_without_bandits (EpsGreedy.one_step np) n s)
      as (s' & Hrun & _ & Hsa' & Hr' & Hq' & Hc' & Hlen); [|assumption|].
    { intros i t Ht. unfold EpsGreedy.one_step. by rewrite Ht. }
    exists s, s'. rewrite Hsa', Hr', Hq', Hc', Hlen, Havg. by repeat split.
  - destruct (ucb_init_fresh np k 0 na) as (s & Hs & Hf).
    destruct (Hfresh s Hf) as (Hnb & Hsa & Hr & Hq & Hc & Havg).
    destruct (main_loop_without_bandits
                (one_step_counted np (UCB.get_action np)) n s)
      as (s' & Hrun & _ & Hsa' & Hr' & Hq' & Hc' & Hlen); [|assumption|].
    { intros i t Ht. unfold one_step_counted. by rewrite Ht. }
    exists s, s'. rewrite Hsa', Hr', Hq', Hc', Hlen, Havg.
    split; [assumption|]. split; [|by repeat split].
    unfold UCB.learn, learn_warm, initial_run. rewrite Hnb. exact Hrun.
  - destruct (softmax_init_fresh np k 0 na x) as (s & Hs & Hf & _).
    destruct (Hfresh s Hf) as (Hnb & Hsa & Hr & Hq & Hc & Havg).
    destruct (main_loop_without_bandits
                (one_step_counted np (fun _ => SoftmaxActionSelection.get_action np))
                n s)
      as (s' & Hrun & _ & Hsa' & Hr' & Hq' & Hc' & Hlen); [|assumption|].
    { intros i t Ht. unfold one_step_counted. by rewrite Ht. }
    exists s, s'. rewrite Hsa', Hr', Hq', Hc', Hlen, Havg.
    split; [assumption|]. split; [|by repeat split].
    unfold SoftmaxActionSelection.learn, learn_warm, initial_run.
    rewrite Hnb. exact Hrun.
Qed.

(** ** Training in two calls *)

Lemma for_each_app {A S} (xs ys : list A) (body : A -> S -> result S) s :
  for_each (xs ++ ys) body s = (s' ← for_each xs body s; for_each ys body s').
Proof.
  revert s. induction xs as [|x xs IH]; intros s; simpl; [reflexivity|].
  destruct (body x s) as [s1|e]; simpl; [apply IH | reflexivity].
Qed.

Lemma for_each_seq_shift {S} (body : nat -> S -> result S) n :
  (forall i j s, body i s = body j s) ->
  forall a b s, for_each (seq a n) body s = for_each (seq b n) body s.
Proof.
  intros Hbody. induction n as [|n IH]; intros a b s; simpl; [reflexivity|].
  rewrite (Hbody a b). destruct (body b s) as [s1|e]; simpl; [apply IH | reflexivity].
Qed.

(** X12.  EpsGreedy.one_step ignores the timestep index, so training an
    EpsGreedy policy for [n + m] timesteps in one call of [learn] is the same
    as [learn(n)] followed by [learn(m)], whether the run returns or
    raises. *)
Theorem eps_learn_in_two_calls np (n m : nat) s :
  EpsGreedy.learn np (Z.of_nat (n + m)) s =
    (s1 ← EpsGreedy.learn np (Z.of_nat n) s; EpsGreedy.learn np (Z.of_nat m) s1).
Proof.
  unfold EpsGreedy.learn, main_loop, range. rewrite !Nat2Z.id.
  rewrite seq_app, for_each_app. simpl.
  destruct (for_each (seq 0 n) _ s) as [s1|e]; simpl; [|reflexivity].
  by apply for_each_seq_shift.
Qed.

(** ** SoftmaxActionSelection.softmax as a distribution *)



(** X14.  With temperature 0 the probabilities of a decision hold a [nan],
    and [np.random.choice] raises [ValueError]: on a newly constructed
    SoftmaxActionSelection with at least one bandit and one arm, the initial
    run returns, the first decision of the main loop raises, and so does
    [learn] of at least one timestep. *)
Theorem softmax_temperature_zero_raises np k (nb na : nat) n temp :
  (temp == 0)%Q -> 0 < nb -> 0 < na -> (0 < n)%Z ->
  exists s s1,
    SoftmaxActionSelection.__init__ np k (Z.of_nat nb) (Z.of_nat na) temp = Ok s /\
    SoftmaxActionSelection.initial_run np s = Ok s1 /\
    SoftmaxActionSelection.get_action np 0 s1 = Raise ValueError /\
    SoftmaxActionSelection.learn np n s = Raise ValueError.
Proof.
  intros Ht Hnb Hna Hn.
  destruct (softmax_init_fresh np k nb na temp) as (s & Hs & Hf & Htemp).
  destruct (initial_run_visits_every_cell np nb na s (fr_dims _ _ _ Hf))
    as (s1 & Hrun & Hd1 & _).
  assert (SoftmaxActionSelection.get_action np 0 s1 = Raise ValueError) as Hga.
  { destruct Hd1 as (Hnb1 & Hna1 & Hwf1).
    apply softmax_get_action_at_zero; [|assumption|lia|lia].
    by rewrite (initial_run_temp _ _ _ Hrun), Htemp. }
  exists s, s1. split; [exact Hs|]. split; [exact Hrun|]. split; [exact Hga|].
  unfold SoftmaxActionSelection.learn, learn_warm. rewrite Hrun. simpl.
  apply main_loop_raise_first; [assumption|].
  unfold one_step_counted. destruct Hd1 as (-> & _).
  destruct nb as [|m]; [lia|]. apply for_each_raise_first.
  unfold decide_counted. by rewrite Hga.
Qed.

Lemma softmax_temperature_zero_raises_witness :
  exists s s1,
    SoftmaxActionSelection.__init__ np0 0 (Z.of_nat 2) (Z.of_nat 3) 0 = Ok s /\
    SoftmaxActionSelection.initial_run np0 s = Ok s1 /\
    SoftmaxActionSelection.get_action np0 0 s1 = Raise ValueError /\
    SoftmaxActionSelection.learn np0 4 s = Raise ValueError.
Proof.
  apply (softmax_temperature_zero_raises np0 0 2 3 4 0).
  - reflexivity.
  - lia.
  - lia.
  - lia.
Defined.

(** ** The choice of an arm *)



(** ** The random stream consumed *)



Section Draws.

Variable np : Numpy.
Variables nb na : nat.



End Draws.



(** ** Indices out of range *)

Lemma getitem_out_of_range {A} nb na (m : list (list A)) b a :
  shaped nb na m -> ~ (b < nb /\ a < na) -> getitem m b a = Raise IndexError.
Proof.
  intros Hm Hout. unfold getitem, getrow, getidx.
  destruct (m !! b) as [row|] eqn:Hrow; [|reflexivity]. simpl.
  pose proof (shaped_row _ _ _ _ _ Hm Hrow) as Hlen.
  pose proof (lookup_lt_Some _ _ _ Hrow) as Hb. destruct Hm as [Hnb _].
  rewrite (lookup_ge_None_2 row a) by lia. reflexivity.
Qed.

(** X17.  On a well-formed policy with at least one arm, a bandit index not
    below [nbandits] or an arm index not below [narms] makes [get_reward],
    [update_regret], the value update and the increment of the counter raise
    [IndexError]. *)
Theorem index_out_of_range_raises np b a r s :
  wf s -> 0 < _narms s -> ~ (b < _nbandits s /\ a < _narms s) ->
  get_reward np b a s = Raise IndexError /\
  update_regret b a s = Raise IndexError /\
  update_Q b a r s = Raise IndexError /\
  incr_counts b a s = Raise IndexError.
Proof.
  intros (Hr & Hq & Hc) Hna Hout.
  split; [|split; [|split]].
  - unfold get_reward. by rewrite (getitem_out_of_range _ _ _ _ _ Hr Hout).
  - unfold update_regret, getrow, getidx.
    destruct (_Q s !! b) as [row|] eqn:Hrow; [|reflexivity]. simpl.
    pose proof (shaped_row _ _ _ _ _ Hq Hrow) as Hlen.
    pose proof (lookup_lt_Some _ _ _ Hrow) as Hb. destruct Hq as [Hnb _].
    destruct row as [|x row]; [simpl in Hlen; lia|]. simpl.
    rewrite (lookup_ge_None_2 (x :: row) a) by lia. reflexivity.
  - unfold update_Q. by rewrite (getitem_out_of_range _ _ _ _ _ Hq Hout).
  - unfold incr_counts. by rewrite (getitem_out_of_range _ _ _ _ _ Hc Hout).
Qed.

Lemma index_out_of_range_raises_witness :
  get_reward np0 0 2 s_cold = Raise IndexError /\
  update_regret 0 2 s_cold = Raise IndexError /\
  update_Q 0 2 5 s_cold = Raise IndexError /\
  incr_counts 0 2 s_cold = Raise IndexError.
Proof.
  apply (index_out_of_range_raises np0 0 2 5 s_cold).
  - apply s_cold_dims.
  - simpl. lia.
  - simpl. lia.
Defined.
